(** * Flash record manager of the Raspberry Pi Pico flash operations

    A shallow embedding of [src/flash_ops.c] (safe write, read, erase and
    the two metadata queries), of [src/flash_ops_helper.c] (the record and
    [DeviceConfig] codecs, [prepare_buffer], [verify_data]) and of the
    command interpreter [execute_command] of [src/cli.c].

    Target: RP2040, a 32-bit little-endian ARM core, so [sizeof(bool) = 1],
    [sizeof(uint32_t) = sizeof(size_t) = sizeof(void * ) = 4] and the struct
    [flash_data] is laid out as

      byte 0      valid
      bytes 1..3  padding
      bytes 4..7  write_count
      bytes 8..11 data_len
      bytes 12..15 data_ptr

    so [METADATA_SIZE = sizeof(flash_data) = 16].

    Memory: the flash device is a map from flash offsets to bytes, read
    through the XIP window at [XIP_BASE]; RAM is a map from addresses to
    bytes.  The address space as seen by [memcpy] is [load].  The SDK
    primitives [flash_range_erase] and [flash_range_program] are given
    operations: erase sets a range to 0xFF, program ANDs the programmed
    bytes into the (NOR) cells.  The state also records a trace of the
    primitive calls and of the interrupt save/restore calls. *)

From Stdlib Require Import String Ascii.
From Stdlib Require Import ZArith List Lia Bool.
Import ListNotations.
Open Scope Z_scope.

(** ** Device geometry and constants *)

Definition FLASH_SECTOR_SIZE : Z := 4096.
Definition FLASH_TARGET_OFFSET : Z := 256 * 1024.
(** [PICO_FLASH_SIZE_BYTES] of the Pico board: 2 MB. *)
Definition FLASH_SIZE : Z := 2 * 1024 * 1024.
Definition XIP_BASE : Z := 268435456. (* 0x10000000 *)
(** Size of the XIP address window onto the flash. *)
Definition XIP_WINDOW : Z := 16777216. (* 0x01000000 *)
Definition METADATA_SIZE : Z := 16.
Definition NULL : Z := 0.

Definition u32 (x : Z) : Z := x mod 2 ^ 32.

(** The sentinel [-1] of [current_data.write_count == -1], converted to
    [uint32_t]. *)
Definition WC_SENTINEL : Z := 4294967295.

(** ** Machine state *)

Inductive event : Type :=
| EvDisableInts                 (* save_and_disable_interrupts() *)
| EvRestoreInts                 (* restore_interrupts(ints) *)
| EvErase (off cnt : Z)         (* flash_range_erase(off, cnt) *)
| EvProgram (off cnt : Z).      (* flash_range_program(off, _, cnt) *)

Record state : Type := mkState {
  flash : Z -> Z;      (* flash offset -> byte *)
  ram   : Z -> Z;      (* RAM address  -> byte *)
  trace : list event
}.

Definition in_range (lo x hi : Z) : bool := (lo <=? x) && (x <? hi).

(** A byte as [memcpy] sees it at address [a]. *)
Definition load (st : state) (a : Z) : Z :=
  if in_range XIP_BASE a (XIP_BASE + XIP_WINDOW)
  then flash st (a - XIP_BASE) else ram st a.

Definition log (st : state) (e : event) : state :=
  mkState (flash st) (ram st) (trace st ++ [e]).

(** ** The SDK primitives *)

Definition flash_range_erase (st : state) (off cnt : Z) : state :=
  mkState (fun a => if in_range off a (off + cnt) then 255 else flash st a)
          (ram st) (trace st ++ [EvErase off cnt]).

Definition flash_range_program (st : state) (off : Z) (bytes : list Z) : state :=
  let cnt := Z.of_nat (length bytes) in
  mkState (fun a => if in_range off a (off + cnt)
                    then Z.land (flash st a) (nth (Z.to_nat (a - off)) bytes 0)
                    else flash st a)
          (ram st) (trace st ++ [EvProgram off cnt]).

(** [memcpy(dst, src, n)] into RAM. *)
Definition memcpy (st : state) (dst src n : Z) : state :=
  mkState (flash st)
          (fun a => if in_range dst a (dst + n) then load st (src + (a - dst))
                    else ram st a)
          (trace st).

(** ** The record [flash_data] and its in-memory representation *)

Record flash_data : Type := mkFlashData {
  valid : Z;         (* the byte of the [bool] *)
  write_count : Z;
  data_len : Z;
  data_ptr : Z
}.

Definition le32_bytes (x : Z) : list Z :=
  [Z.land x 255; Z.land (Z.shiftr x 8) 255;
   Z.land (Z.shiftr x 16) 255; Z.land (Z.shiftr x 24) 255].

(** A little-endian [uint32_t] (or [size_t]) read from four bytes. *)
Definition le32_at (m : Z -> Z) (p : Z) : Z :=
  m p + m (p + 1) * 2 ^ 8 + m (p + 2) * 2 ^ 16 + m (p + 3) * 2 ^ 24.

(** The 16 bytes of a [flash_data] object.  Its padding bytes are
    indeterminate in C; they are written as 0 here and nothing reads them. *)
Definition struct_bytes (d : flash_data) : list Z :=
  [valid d; 0; 0; 0] ++ le32_bytes (write_count d)
  ++ le32_bytes (data_len d) ++ le32_bytes (data_ptr d).

(** [true] on the three padding bytes of the [flash_data] object programmed
    at flash offset [fo]: the statements about flash contents leave them out. *)
Definition padding_byte (fo a : Z) : bool := in_range (fo + 1) a (fo + 4).

(** [memcpy(&d, p, METADATA_SIZE)] from the address space. *)
Definition read_struct (st : state) (p : Z) : flash_data :=
  mkFlashData (load st p) (le32_at (load st) (p + 4))
              (le32_at (load st) (p + 8)) (le32_at (load st) (p + 12)).

(** ** Exit paths

    The C functions return [void] (or [0] for the queries) and report the
    error path taken with a [printf]; [status] names that path. *)

Inductive status : Type :=
| Ok
| MisalignedOffset
| PayloadTooLarge
| OutOfRange
| NullOrEmptyPayload
| InvalidOrUninitialized
| MalformedRecord
| AllocationFailure
| BufferTooSmall.

Definition status_eq_dec (x y : status) : {x = y} + {x <> y}.
Proof. decide equality. Defined.

Definition is_ok (s : status) : bool := match s with Ok => true | _ => false end.

(** ** flash_ops.c *)

Definition flash_offset_of (offset : Z) : Z := u32 (FLASH_TARGET_OFFSET + offset).

Definition flash_bound : Z := FLASH_TARGET_OFFSET + FLASH_SIZE.

Definition flash_write_safe_struct (st : state) (offset : Z) (new_data : flash_data)
  : state :=
  let st := log st EvDisableInts in
  let current_data := read_struct st (XIP_BASE + offset) in
  let prior := if write_count current_data =? WC_SENTINEL then 0
               else write_count current_data in
  let new_data := mkFlashData 1 (u32 (prior + 1)) (data_len new_data)
                              (data_ptr new_data) in
  let st := flash_range_erase st offset FLASH_SECTOR_SIZE in
  let st := flash_range_program st offset (struct_bytes new_data) in
  log st EvRestoreInts.

Definition flash_write_safe (st : state) (offset data data_len : Z)
  : state * status :=
  let flash_offset := flash_offset_of offset in
  if (data =? NULL) || (data_len =? 0) then (st, NullOrEmptyPayload)
  else if negb (flash_offset mod FLASH_SECTOR_SIZE =? 0) then (st, MisalignedOffset)
  else if data_len >? FLASH_SECTOR_SIZE - METADATA_SIZE then (st, PayloadTooLarge)
  else if flash_offset + METADATA_SIZE >? flash_bound then (st, OutOfRange)
  else (flash_write_safe_struct st flash_offset (mkFlashData 0 0 data_len data), Ok).

(** [flash_read_safe_struct] on a zero-initialised [flash_data]. *)
Definition flash_read_safe_struct (st : state) (offset : Z) : flash_data :=
  if offset + METADATA_SIZE >? flash_bound then mkFlashData 0 0 0 0
  else read_struct st (XIP_BASE + offset).

Definition flash_read_safe (st : state) (offset buffer buffer_len : Z)
  : state * status :=
  let flash_offset := flash_offset_of offset in
  if negb (flash_offset mod FLASH_SECTOR_SIZE =? 0) then (st, MisalignedOffset)
  else if flash_offset + METADATA_SIZE >? flash_bound then (st, OutOfRange)
  else
    let flashData := flash_read_safe_struct st flash_offset in
    if (valid flashData =? 0) || (data_len flashData =? 0)
    then (st, InvalidOrUninitialized)
    else
      let buffer_len := if buffer_len >? data_len flashData
                        then data_len flashData else buffer_len in
      (memcpy st buffer (data_ptr flashData) buffer_len, Ok).

Definition flash_erase_safe (st : state) (offset : Z) : state * status :=
  let flash_offset := flash_offset_of offset in
  if negb (flash_offset mod FLASH_SECTOR_SIZE =? 0) then (st, MisalignedOffset)
  else if flash_offset + METADATA_SIZE >? flash_bound then (st, OutOfRange)
  else
    let st := log st EvDisableInts in
    let sector_start := Z.land flash_offset (u32 (Z.lnot (FLASH_SECTOR_SIZE - 1))) in
    if sector_start >=? flash_bound then (log st EvRestoreInts, OutOfRange)
    else
      let metadata_backup := read_struct st (XIP_BASE + sector_start) in
      let st := flash_range_erase st sector_start FLASH_SECTOR_SIZE in
      let metadata_to_restore :=
        mkFlashData 0 (write_count metadata_backup) 0 NULL in
      let st := flash_range_program st sector_start (struct_bytes metadata_to_restore) in
      (log st EvRestoreInts, Ok).

Definition get_flash_write_count (st : state) (offset : Z) : Z * status :=
  let flash_offset := flash_offset_of offset in
  if negb (flash_offset mod FLASH_SECTOR_SIZE =? 0) then (0, MisalignedOffset)
  else if flash_offset + METADATA_SIZE >? flash_bound then (0, OutOfRange)
  else (write_count (read_struct st (XIP_BASE + flash_offset)), Ok).

Definition get_flash_data_length (st : state) (offset : Z) : Z * status :=
  let flash_offset := flash_offset_of offset in
  if negb (flash_offset mod FLASH_SECTOR_SIZE =? 0) then (0, MisalignedOffset)
  else if flash_offset + METADATA_SIZE >? flash_bound then (0, OutOfRange)
  else (data_len (read_struct st (XIP_BASE + flash_offset)), Ok).

(** ** Sequences of public operations *)

Inductive op : Type :=
| OpWrite (offset data data_len : Z)
| OpRead (offset buffer buffer_len : Z)
| OpErase (offset : Z)
| OpGetWriteCount (offset : Z)
| OpGetDataLength (offset : Z).

Definition exec (st : state) (o : op) : state * status :=
  match o with
  | OpWrite off d n => flash_write_safe st off d n
  | OpRead off b n => flash_read_safe st off b n
  | OpErase off => flash_erase_safe st off
  | OpGetWriteCount off => (st, snd (get_flash_write_count st off))
  | OpGetDataLength off => (st, snd (get_flash_data_length st off))
  end.

Fixpoint run (st : state) (ops : list op) : state :=
  match ops with
  | [] => st
  | o :: ops => run (fst (exec st o)) ops
  end.

Definition fresh_flash : Z -> Z := fun _ => 255.

(** ** flash_ops_helper.c: the record codec

    The codec works on the CPU address space, a map [m] from addresses to
    bytes; the payload of a record lives at [data_ptr]. *)

(** Size of the serialised header: [sizeof(valid) + sizeof(write_count) +
    sizeof(data_len)]. *)
Definition SERIALIZED_HEADER_SIZE : Z := 1 + 4 + 4.

Definition store_bytes (m : Z -> Z) (p : Z) (bytes : list Z) : Z -> Z :=
  fun a => if in_range p a (p + Z.of_nat (length bytes))
           then nth (Z.to_nat (a - p)) bytes 0 else m a.

Definition memcpy_mem (m : Z -> Z) (dst src n : Z) : Z -> Z :=
  fun a => if in_range dst a (dst + n) then m (src + (a - dst)) else m a.

(** The [n] bytes at address [p]. *)
Definition bytes_at (m : Z -> Z) (p n : Z) : list Z :=
  map (fun i => m (p + Z.of_nat i)) (seq 0 (Z.to_nat n)).

Definition serialize_flash_data (m : Z -> Z) (data : flash_data) (buffer buffer_size : Z)
  : (Z -> Z) * status :=
  let required_size := 1 + 4 + 4 + data_len data in
  if buffer_size <? required_size then (m, BufferTooSmall)
  else
    let m := store_bytes m buffer [valid data] in
    let m := store_bytes m (buffer + 1) (le32_bytes (write_count data)) in
    let m := store_bytes m (buffer + 5) (le32_bytes (data_len data)) in
    let m := if negb (data_ptr data =? NULL) && (data_len data >? 0)
             then memcpy_mem m (buffer + 9) (data_ptr data) (data_len data)
             else m in
    (m, Ok).

(** A deserialised record: the payload is the buffer [malloc] returned,
    owned by the record, given by its contents ([None] when [malloc]
    returned NULL; the function then returns with [data_ptr == NULL]). *)
Record decoded_flash_data : Type := mkDecoded {
  d_valid : Z;
  d_write_count : Z;
  d_data_len : Z;
  d_payload : option (list Z)
}.

(** [malloc_ok] is the outcome of the [malloc(data->data_len)] call. *)
Definition deserialize_flash_data (m : Z -> Z) (buffer : Z) (malloc_ok : bool)
  : decoded_flash_data :=
  let valid := m buffer in
  let write_count := le32_at m (buffer + 1) in
  let data_len := le32_at m (buffer + 5) in
  mkDecoded valid write_count data_len
    (if malloc_ok then Some (bytes_at m (buffer + 9) data_len) else None).

(** The byte image [serialize_flash_data] writes, field by field. *)
Definition encode (m : Z -> Z) (data : flash_data) : list Z :=
  [valid data] ++ le32_bytes (write_count data) ++ le32_bytes (data_len data)
  ++ bytes_at m (data_ptr data) (data_len data).

(** ** Derived notions used by the statements *)

Definition byte_ok (b : Z) : Prop := 0 <= b <= 255.

(** The header of the block at flash offset [off], as [memcpy] reads it. *)
Definition flash_header (m : Z -> Z) (off : Z) : flash_data :=
  mkFlashData (m off) (le32_at m (off + 4)) (le32_at m (off + 8)) (le32_at m (off + 12)).

(** An offset accepted by the alignment and bounds checks. *)
Definition block_ok (offset : Z) : Prop :=
  flash_offset_of offset mod FLASH_SECTOR_SIZE = 0 /\
  flash_offset_of offset + METADATA_SIZE <= flash_bound.

Definition flash_wf (st : state) : Prop := forall a, byte_ok (flash st a).

Definition hdr (st : state) (offset : Z) : flash_data :=
  flash_header (flash st) (flash_offset_of offset).

(** The value [flash_write_safe_struct] stores as the new write count. *)
Definition next_write_count (c : Z) : Z :=
  u32 ((if c =? WC_SENTINEL then 0 else c) + 1).

(** The record [flash_erase_safe] programs back after the erase. *)
Definition restored_metadata (st : state) (offset : Z) : flash_data :=
  mkFlashData 0 (write_count (hdr st offset)) 0 NULL.

Definition is_write_to (offset : Z) (x : op) : bool :=
  match x with
  | OpWrite o _ _ => flash_offset_of o =? flash_offset_of offset
  | _ => false
  end.

Definition op_wt (x : op) : Prop :=
  match x with
  | OpWrite _ d n => 0 <= d < 2 ^ 32 /\ 0 <= n < 2 ^ 32
  | _ => True
  end.

Definition erased_at (st : state) (offset : Z) : Prop :=
  valid (hdr st offset) = 0 /\ data_len (hdr st offset) = 0.

(** Whether a run of [ops] from [st] contains a successful write to the
    block of [offset]. *)
Fixpoint writes_to (offset : Z) (st : state) (ops : list op) : bool :=
  match ops with
  | [] => false
  | x :: ops =>
      (is_write_to offset x && is_ok (snd (exec st x)))
      || writes_to offset (fst (exec st x)) ops
  end.

(** A fresh chip, with 100 bytes of [0xAB] at RAM address [0x20000000]. *)
Definition demo_state : state :=
  mkState fresh_flash (fun a => if in_range 536870912 a 536871012 then 171 else 0) [].

(** ** flash_ops_helper.c: the [DeviceConfig] codec

    [DeviceConfig] is [{uint32_t id; float sensor_value; char name[10];}]:
    18 bytes of fields, padded to [sizeof(DeviceConfig) = 20].  The codec
    only [memcpy]s the object representation of each field, so the [float]
    is its 32-bit IEEE-754 pattern, as a [uint32_t] read little-endian. *)
Record DeviceConfig : Type := mkDeviceConfig {
  id : Z;
  sensor_value : Z;    (* the four bytes of the float *)
  name : list Z        (* the ten bytes of [name] *)
}.

Definition DEVICE_CONFIG_SIZE : Z := 20.

(** The [sizeof(config->name) = 10] bytes [memcpy] copies out of [name]. *)
Definition name_bytes (config : DeviceConfig) : list Z :=
  map (fun i => nth i (name config) 0) (seq 0 10).

Definition serialize_device_config (m : Z -> Z) (config : DeviceConfig) (buffer : Z)
  : Z -> Z :=
  let m := store_bytes m buffer (le32_bytes (id config)) in
  let m := store_bytes m (buffer + 4) (le32_bytes (sensor_value config)) in
  store_bytes m (buffer + 4 + 4) (name_bytes config).

Definition deserialize_device_config (m : Z -> Z) (buffer : Z) : DeviceConfig :=
  mkDeviceConfig (le32_at m buffer) (le32_at m (buffer + 4))
                 (bytes_at m (buffer + 4 + 4) 10).

(** ** flash_ops_helper.c: [prepare_buffer] and [verify_data]

    [text] is the byte sequence at the [text] pointer, through (at least)
    its terminating NUL. *)
Fixpoint strlen (text : list Z) : Z :=
  match text with
  | [] => 0
  | c :: text => if c =? 0 then 0 else 1 + strlen text
  end.

(** [calloc_ok] is the outcome of [calloc]; the result is [*buffer_size]
    and the contents of the returned buffer ([None] for [NULL]). *)
Definition prepare_buffer (text : list Z) (calloc_ok : bool) : Z * option (list Z) :=
  let text_len := u32 (strlen text + 1) in
  let buffer_size := u32 (u32 (text_len + 255) / 256 * 256) in
  (buffer_size,
   if calloc_ok
   then Some (map (fun i => if Z.of_nat i <? text_len then nth i text 0 else 0)
                  (seq 0 (Z.to_nat buffer_size)))
   else None).

(** [memcmp] over the address space [m], unsigned bytes. *)
Fixpoint memcmp_n (m : Z -> Z) (s1 s2 : Z) (n : nat) : Z :=
  match n with
  | O => 0
  | S n => if m s1 =? m s2 then memcmp_n m (s1 + 1) (s2 + 1) n else m s1 - m s2
  end.

Definition memcmp (m : Z -> Z) (s1 s2 n : Z) : Z := memcmp_n m s1 s2 (Z.to_nat n).

(** [true] when [verify_data] prints its success message. *)
Definition verify_data (m : Z -> Z) (original read_back size : Z) : bool :=
  memcmp m original read_back size =? 0.

(** ** cli.c: [execute_command]

    The command line is a C string, [strtok] and [atoi] as the C library
    has them.  [strtok] returns the token and the rest of the string after
    the delimiter it overwrote (the empty string when the token ran to the
    end). *)
Fixpoint is_delim (c : ascii) (delim : string) : bool :=
  match delim with
  | EmptyString => false
  | String d delim => Ascii.eqb c d || is_delim c delim
  end.

Fixpoint skip_delims (delim s : string) : string :=
  match s with
  | EmptyString => EmptyString
  | String c s' => if is_delim c delim then skip_delims delim s' else s
  end.

Fixpoint token_span (delim s : string) : string * string :=
  match s with
  | EmptyString => (EmptyString, EmptyString)
  | String c s' =>
      if is_delim c delim then (EmptyString, s')
      else let (t, r) := token_span delim s' in (String c t, r)
  end.

Definition strtok (s delim : string) : option (string * string) :=
  match skip_delims delim s with
  | EmptyString => None
  | s' => Some (token_span delim s')
  end.

Definition is_space (c : ascii) : bool :=
  let n := nat_of_ascii c in (n =? 32)%nat || ((9 <=? n)%nat && (n <=? 13)%nat).

Definition is_digit (c : ascii) : bool :=
  let n := nat_of_ascii c in (48 <=? n)%nat && (n <=? 57)%nat.

Fixpoint atoi_digits (acc : Z) (s : string) : Z :=
  match s with
  | String c s' =>
      if is_digit c then atoi_digits (acc * 10 + Z.of_nat (nat_of_ascii c - 48)) s'
      else acc
  | EmptyString => acc
  end.

Fixpoint skip_spaces (s : string) : string :=
  match s with
  | String c s' => if is_space c then skip_spaces s' else s
  | EmptyString => EmptyString
  end.

(** [atoi] as the exact value of the digits; the C function is undefined
    when that value does not fit an [int]. *)
Definition atoi (s : string) : Z :=
  match skip_spaces s with
  | String c s' =>
      if Ascii.eqb c "-"%char then - atoi_digits 0 s'
      else if Ascii.eqb c "+"%char then atoi_digits 0 s'
      else atoi_digits 0 (String c s')
  | EmptyString => 0
  end.

Definition QUOTE : string := String (ascii_of_nat 34) EmptyString.

(** The message path [execute_command] takes. *)
Inductive cli_result : Type :=
| CliInvalidCommand
| CliWriteMissingArgs
| CliWriteBadData
| CliWriteParsed (address data_len : Z)      (* the write call is commented out *)
| CliReadMissingAddress
| CliReadShown (address write_count : Z)     (* the read call is commented out *)
| CliEraseMissingAddress
| CliErased (address : Z)
| CliUnknownCommand.

Definition execute_command (st : state) (command : string) : state * cli_result :=
  match strtok command " " with
  | None => (st, CliInvalidCommand)
  | Some (token, rest) =>
      if String.eqb token "FLASH_WRITE" then
        match strtok rest " " with
        | None => (st, CliWriteMissingArgs)
        | Some (token, rest) =>
            let address := u32 (atoi token) in
            match strtok rest QUOTE with
            | None => (st, CliWriteBadData)
            | Some (token, _) =>
                let data_to_write := mkFlashData 0 0 (Z.of_nat (String.length token)) NULL in
                (st, CliWriteParsed address (data_len data_to_write))
            end
        end
      else if String.eqb token "FLASH_READ" then
        match strtok rest " " with
        | None => (st, CliReadMissingAddress)
        | Some (token, _) =>
            let address := u32 (atoi token) in
            let data_read := mkFlashData 0 0 0 NULL in
            (st, CliReadShown address (write_count data_read))
        end
      else if String.eqb token "FLASH_ERASE" then
        match strtok rest " " with
        | None => (st, CliEraseMissingAddress)
        | Some (token, _) =>
            let address := u32 (atoi token) in
            (fst (flash_erase_safe st address), CliErased address)
        end
      else (st, CliUnknownCommand)
  end.

(** ** Byte images used by the statements *)

(** The bytes [serialize_flash_data] writes when it copies no payload. *)
Definition serialized_header (data : flash_data) : list Z :=
  [valid data] ++ le32_bytes (write_count data) ++ le32_bytes (data_len data).

(** The 18 bytes [serialize_device_config] writes. *)
Definition device_config_bytes (config : DeviceConfig) : list Z :=
  le32_bytes (id config) ++ le32_bytes (sensor_value config) ++ name_bytes config.

(** ** Basic facts about the memory model *)

Lemma land255_mod (x : Z) : Z.land x 255 = x mod 256.
Proof.
  change 255 with (Z.ones 8). rewrite Z.land_ones by lia. reflexivity.
Qed.

Lemma le32_byte_mod (x k : Z) : 0 <= k ->
  Z.land (Z.shiftr x k) 255 = (x / 2 ^ k) mod 256.
Proof. intros Hk. rewrite land255_mod, Z.shiftr_div_pow2 by lia. reflexivity. Qed.

Lemma le32_bytes_ok (x : Z) : Forall byte_ok (le32_bytes x).
Proof.
  unfold le32_bytes, byte_ok.
  repeat apply Forall_cons; try apply Forall_nil; rewrite land255_mod;
    pose proof (Z.mod_pos_bound (Z.shiftr x 8) 256);
    pose proof (Z.mod_pos_bound (Z.shiftr x 16) 256);
    pose proof (Z.mod_pos_bound (Z.shiftr x 24) 256);
    pose proof (Z.mod_pos_bound x 256); lia.
Qed.

Lemma struct_bytes_ok (d : flash_data) : byte_ok (valid d) ->
  Forall byte_ok (struct_bytes d).
Proof.
  intros Hv. unfold struct_bytes.
  rewrite !Forall_app. repeat split; try apply le32_bytes_ok.
  repeat apply Forall_cons; try apply Forall_nil; [exact Hv | ..];
    unfold byte_ok; lia.
Qed.

Lemma struct_bytes_length (d : flash_data) : length (struct_bytes d) = 16%nat.
Proof. reflexivity. Qed.

Lemma nth_byte_ok (l : list Z) (n : nat) : Forall byte_ok l -> byte_ok (nth n l 0).
Proof.
  intros H. destruct (Nat.lt_ge_cases n (length l)) as [Hl | Hl].
  - rewrite Forall_forall in H. apply H, nth_In, Hl.
  - rewrite nth_overflow by exact Hl. unfold byte_ok; lia.
Qed.

Lemma le32_split (x : Z) : 0 <= x < 2 ^ 32 ->
  Z.land x 255 + Z.land (Z.shiftr x 8) 255 * 2 ^ 8
  + Z.land (Z.shiftr x 16) 255 * 2 ^ 16 + Z.land (Z.shiftr x 24) 255 * 2 ^ 24 = x.
Proof.
  intros Hx.
  rewrite land255_mod, !le32_byte_mod by lia.
  assert (E1 : x / 2 ^ 16 = x / 2 ^ 8 / 2 ^ 8)
    by (rewrite Z.div_div by lia; reflexivity).
  assert (E2 : x / 2 ^ 24 = x / 2 ^ 16 / 2 ^ 8)
    by (rewrite Z.div_div by lia; reflexivity).
  assert (E3 : x / 2 ^ 24 < 256)
    by (apply Z.div_lt_upper_bound; lia).
  assert (E4 : 0 <= x / 2 ^ 24) by (apply Z.div_pos; lia).
  rewrite (Z.mod_small (x / 2 ^ 24) 256) by lia.
  pose proof (Z.div_mod x 256 ltac:(lia)) as H0.
  pose proof (Z.div_mod (x / 2 ^ 8) 256 ltac:(lia)) as H1.
  pose proof (Z.div_mod (x / 2 ^ 16) 256 ltac:(lia)) as H2.
  change (2 ^ 8) with 256 in *. change (2 ^ 16) with 65536 in *.
  change (2 ^ 24) with 16777216 in *.
  rewrite <- E1 in H1. rewrite <- E2 in H2.
  change (256 / 256) with 1 in *.
  generalize dependent (x mod 256); generalize dependent ((x / 256) mod 256);
  generalize dependent ((x / 65536) mod 256);
  generalize dependent (x / 256); generalize dependent (x / 65536);
  generalize dependent (x / 16777216).
  intros; lia.
Qed.

Lemma in_range_true (lo x hi : Z) : lo <= x < hi -> in_range lo x hi = true.
Proof. intros H. unfold in_range. apply andb_true_intro; split; lia. Qed.

Lemma in_range_false (lo x hi : Z) : ~ (lo <= x < hi) -> in_range lo x hi = false.
Proof.
  intros H. unfold in_range.
  destruct (lo <=? x) eqn:E1, (x <? hi) eqn:E2; simpl; auto; lia.
Qed.

Lemma in_range_spec (lo x hi : Z) : in_range lo x hi = true <-> lo <= x < hi.
Proof.
  unfold in_range. rewrite andb_true_iff, Z.leb_le, Z.ltb_lt. tauto.
Qed.

Lemma land_255_byte (b : Z) : byte_ok b -> Z.land 255 b = b.
Proof.
  intros Hb. rewrite Z.land_comm, land255_mod, Z.mod_small; unfold byte_ok in *; lia.
Qed.

Lemma load_xip (st : state) (a : Z) :
  XIP_BASE <= a < XIP_BASE + XIP_WINDOW -> load st a = flash st (a - XIP_BASE).
Proof. intros H. unfold load. rewrite in_range_true by lia. reflexivity. Qed.

Lemma load_ram (st : state) (a : Z) :
  ~ (XIP_BASE <= a < XIP_BASE + XIP_WINDOW) -> load st a = ram st a.
Proof. intros H. unfold load. rewrite in_range_false by lia. reflexivity. Qed.

Lemma le32_at_ext (m m' : Z -> Z) (p p' : Z) :
  (forall i, 0 <= i < 4 -> m (p + i) = m' (p' + i)) ->
  le32_at m p = le32_at m' p'.
Proof.
  intros H. unfold le32_at.
  pose proof (H 0 ltac:(lia)) as H0. pose proof (H 1 ltac:(lia)) as H1.
  pose proof (H 2 ltac:(lia)) as H2. pose proof (H 3 ltac:(lia)) as H3.
  rewrite !Z.add_0_r in H0. rewrite H0, H1, H2, H3. reflexivity.
Qed.

Lemma read_struct_xip (st : state) (off : Z) :
  0 <= off -> off + 16 <= XIP_WINDOW ->
  read_struct st (XIP_BASE + off) = flash_header (flash st) off.
Proof.
  intros H1 H2. unfold read_struct, flash_header.
  f_equal; try apply le32_at_ext; intros;
    rewrite load_xip by lia; f_equal; lia.
Qed.

Lemma flash_header_ext (m m' : Z -> Z) (off : Z) :
  (forall k, 0 <= k < 16 -> m (off + k) = m' k) ->
  flash_header m off = flash_header m' 0.
Proof.
  intros H. unfold flash_header.
  f_equal; try apply le32_at_ext; intros.
  - rewrite <- H by lia. f_equal; lia.
  - rewrite <- H by lia. f_equal; lia.
  - rewrite <- H by lia. f_equal; lia.
  - rewrite <- H by lia. f_equal; lia.
Qed.

Lemma flash_header_struct_bytes (d : flash_data) :
  0 <= write_count d < 2 ^ 32 -> 0 <= data_len d < 2 ^ 32 ->
  0 <= data_ptr d < 2 ^ 32 ->
  flash_header (fun i => nth (Z.to_nat i) (struct_bytes d) 0) 0 = d.
Proof.
  intros H1 H2 H3. destruct d as [v w l p]. cbn [write_count data_len data_ptr] in *.
  unfold flash_header, le32_at, struct_bytes, le32_bytes.
  change (Z.to_nat (0 + 4)) with 4%nat. change (Z.to_nat (0 + 4 + 1)) with 5%nat.
  change (Z.to_nat (0 + 4 + 2)) with 6%nat. change (Z.to_nat (0 + 4 + 3)) with 7%nat.
  change (Z.to_nat (0 + 8)) with 8%nat. change (Z.to_nat (0 + 8 + 1)) with 9%nat.
  change (Z.to_nat (0 + 8 + 2)) with 10%nat. change (Z.to_nat (0 + 8 + 3)) with 11%nat.
  change (Z.to_nat (0 + 12)) with 12%nat. change (Z.to_nat (0 + 12 + 1)) with 13%nat.
  change (Z.to_nat (0 + 12 + 2)) with 14%nat. change (Z.to_nat (0 + 12 + 3)) with 15%nat.
  cbn [app nth].
  rewrite !le32_split by assumption. reflexivity.
Qed.

Lemma erase_program_flash (st : state) (off : Z) (bytes : list Z) (a : Z) :
  (length bytes <= 4096)%nat -> Forall byte_ok bytes ->
  flash (flash_range_program (flash_range_erase st off FLASH_SECTOR_SIZE) off bytes) a =
  if in_range off a (off + Z.of_nat (length bytes)) then nth (Z.to_nat (a - off)) bytes 0
  else if in_range off a (off + FLASH_SECTOR_SIZE) then 255 else flash st a.
Proof.
  intros Hl Hb. unfold flash_range_program, flash_range_erase. cbn [flash].
  destruct (in_range off a (off + Z.of_nat (length bytes))) eqn:E1; auto.
  apply in_range_spec in E1.
  rewrite in_range_true by (unfold FLASH_SECTOR_SIZE; lia).
  apply land_255_byte, nth_byte_ok, Hb.
Qed.

Lemma header_erase_program (st : state) (off : Z) (d : flash_data) :
  byte_ok (valid d) ->
  0 <= write_count d < 2 ^ 32 -> 0 <= data_len d < 2 ^ 32 ->
  0 <= data_ptr d < 2 ^ 32 ->
  flash_header
    (flash (flash_range_program (flash_range_erase st off FLASH_SECTOR_SIZE) off
              (struct_bytes d))) off = d.
Proof.
  intros Hv H1 H2 H3.
  rewrite (flash_header_ext _ (fun i => nth (Z.to_nat i) (struct_bytes d) 0)).
  - apply flash_header_struct_bytes; assumption.
  - intros k Hk. rewrite erase_program_flash.
    + rewrite struct_bytes_length, in_range_true by lia. f_equal. f_equal. ring.
    + rewrite struct_bytes_length. lia.
    + apply struct_bytes_ok, Hv.
Qed.

Lemma erase_program_frame (st : state) (off : Z) (bytes : list Z) (a : Z) :
  (length bytes <= 4096)%nat -> Forall byte_ok bytes ->
  ~ (off <= a < off + FLASH_SECTOR_SIZE) ->
  flash (flash_range_program (flash_range_erase st off FLASH_SECTOR_SIZE) off bytes) a =
  flash st a.
Proof.
  intros Hl Hb Ha. rewrite erase_program_flash by assumption.
  rewrite !in_range_false by (unfold FLASH_SECTOR_SIZE in *; lia). reflexivity.
Qed.

(** ** Blocks *)

Lemma flash_offset_range (offset : Z) : 0 <= flash_offset_of offset < 2 ^ 32.
Proof. unfold flash_offset_of, u32. apply Z.mod_pos_bound. lia. Qed.

Lemma block_ok_range (offset : Z) : block_ok offset ->
  0 <= flash_offset_of offset /\
  flash_offset_of offset + FLASH_SECTOR_SIZE <= flash_bound /\
  flash_offset_of offset + 16 <= XIP_WINDOW.
Proof.
  intros [H1 H2]. pose proof (flash_offset_range offset).
  unfold FLASH_SECTOR_SIZE, METADATA_SIZE, flash_bound, FLASH_TARGET_OFFSET,
    FLASH_SIZE, XIP_WINDOW in *.
  pose proof (Z.div_mod (flash_offset_of offset) 4096 ltac:(lia)).
  lia.
Qed.

(** Two distinct accepted blocks occupy disjoint sectors. *)
Lemma blocks_disjoint (o o' : Z) (k : Z) :
  block_ok o -> block_ok o' -> flash_offset_of o <> flash_offset_of o' ->
  0 <= k < 16 ->
  ~ (flash_offset_of o' <= flash_offset_of o + k < flash_offset_of o' + FLASH_SECTOR_SIZE).
Proof.
  intros [H1 _] [H2 _] Hne Hk.
  unfold FLASH_SECTOR_SIZE in *.
  pose proof (Z.div_mod (flash_offset_of o) 4096 ltac:(lia)).
  pose proof (Z.div_mod (flash_offset_of o') 4096 ltac:(lia)).
  lia.
Qed.

Lemma sector_mask (fo : Z) : 0 <= fo < 2 ^ 32 -> fo mod FLASH_SECTOR_SIZE = 0 ->
  Z.land fo (u32 (Z.lnot (FLASH_SECTOR_SIZE - 1))) = fo.
Proof.
  intros H1 H2. unfold FLASH_SECTOR_SIZE in *.
  change (u32 (Z.lnot (4096 - 1))) with (Z.shiftl (Z.ones 20) 12).
  pose proof (Z.div_mod fo 4096 ltac:(lia)) as E.
  rewrite H2, Z.add_0_r in E.
  assert (Eq : fo = Z.shiftl (fo / 4096) 12)
    by (rewrite Z.shiftl_mul_pow2 by lia; lia).
  rewrite Eq at 1. rewrite <- Z.shiftl_land, Z.land_ones by lia.
  rewrite Z.mod_small.
  - symmetry; exact Eq.
  - split; [apply Z.div_pos; lia | apply Z.div_lt_upper_bound; lia].
Qed.

Lemma le32_at_range (m : Z -> Z) (p : Z) : (forall a, byte_ok (m a)) ->
  0 <= le32_at m p < 2 ^ 32.
Proof.
  intros H. unfold le32_at, byte_ok in *.
  pose proof (H p). pose proof (H (p + 1)). pose proof (H (p + 2)).
  pose proof (H (p + 3)). lia.
Qed.

Lemma u32_range (x : Z) : 0 <= u32 x < 2 ^ 32.
Proof. unfold u32. apply Z.mod_pos_bound. lia. Qed.

Lemma block_ok_dec (offset : Z) :
  block_ok offset <->
  (negb (flash_offset_of offset mod FLASH_SECTOR_SIZE =? 0) = false /\
   (flash_offset_of offset + METADATA_SIZE >? flash_bound) = false).
Proof.
  unfold block_ok. rewrite negb_false_iff, Z.eqb_eq, Z.gtb_ltb, Z.ltb_ge. tauto.
Qed.

Lemma block_ok_decide (offset : Z) : {block_ok offset} + {~ block_ok offset}.
Proof.
  destruct (negb (flash_offset_of offset mod FLASH_SECTOR_SIZE =? 0)) eqn:E1,
    (flash_offset_of offset + METADATA_SIZE >? flash_bound) eqn:E2;
  try (right; rewrite block_ok_dec, E1, E2; intros [? ?]; discriminate).
  left. apply block_ok_dec. auto.
Defined.

Ltac block_guards H :=
  let G1 := fresh "G" in let G2 := fresh "G" in
  destruct (proj1 (block_ok_dec _) H) as [G1 G2]; rewrite ?G1, ?G2.

Lemma get_flash_write_count_ok (st : state) (offset : Z) : block_ok offset ->
  get_flash_write_count st offset = (write_count (hdr st offset), Ok).
Proof.
  intros H. pose proof (block_ok_range _ H) as (R1 & R2 & R3).
  unfold get_flash_write_count. block_guards H.
  rewrite read_struct_xip by lia. reflexivity.
Qed.

Lemma get_flash_data_length_ok (st : state) (offset : Z) : block_ok offset ->
  get_flash_data_length st offset = (data_len (hdr st offset), Ok).
Proof.
  intros H. pose proof (block_ok_range _ H) as (R1 & R2 & R3).
  unfold get_flash_data_length. block_guards H.
  rewrite read_struct_xip by lia. reflexivity.
Qed.

Lemma write_struct_flash (st : state) (fo : Z) (nd : flash_data) :
  flash (flash_write_safe_struct st fo nd) =
  flash (flash_range_program (flash_range_erase st fo FLASH_SECTOR_SIZE) fo
     (struct_bytes (mkFlashData 1
        (next_write_count (write_count (read_struct st (XIP_BASE + fo))))
        (data_len nd) (data_ptr nd)))).
Proof. reflexivity. Qed.

Lemma write_struct_header (st : state) (offset : Z) (nd : flash_data) :
  block_ok offset ->
  0 <= data_len nd < 2 ^ 32 -> 0 <= data_ptr nd < 2 ^ 32 ->
  hdr (flash_write_safe_struct st (flash_offset_of offset) nd) offset =
  mkFlashData 1 (next_write_count (write_count (hdr st offset)))
              (data_len nd) (data_ptr nd).
Proof.
  intros H H1 H2. pose proof (block_ok_range _ H) as (R1 & R2 & R3).
  unfold hdr at 1. rewrite write_struct_flash, read_struct_xip by lia.
  apply header_erase_program; cbn; try assumption.
  - unfold byte_ok; lia.
  - apply u32_range.
Qed.

Lemma write_struct_frame (st : state) (fo : Z) (nd : flash_data) (a : Z) :
  ~ (fo <= a < fo + FLASH_SECTOR_SIZE) ->
  flash (flash_write_safe_struct st fo nd) a = flash st a.
Proof.
  intros Ha. rewrite write_struct_flash. apply erase_program_frame; auto.
  - rewrite struct_bytes_length. lia.
  - apply struct_bytes_ok. cbn. unfold byte_ok; lia.
Qed.

Lemma write_struct_ram (st : state) (fo : Z) (nd : flash_data) :
  ram (flash_write_safe_struct st fo nd) = ram st.
Proof. reflexivity. Qed.

Lemma write_struct_wf (st : state) (fo : Z) (nd : flash_data) :
  flash_wf st -> flash_wf (flash_write_safe_struct st fo nd).
Proof.
  intros Hw a. rewrite write_struct_flash, erase_program_flash.
  - destruct (in_range _ _ _); [apply nth_byte_ok, struct_bytes_ok; cbn|].
    + unfold byte_ok; lia.
    + destruct (in_range _ _ _); [unfold byte_ok; lia | apply Hw].
  - rewrite struct_bytes_length. lia.
  - apply struct_bytes_ok. cbn. unfold byte_ok; lia.
Qed.

(** The checks of [flash_write_safe], in their order. *)
Lemma flash_write_safe_accept (st : state) (offset data data_len : Z) :
  data <> NULL -> data_len <> 0 -> block_ok offset ->
  data_len <= FLASH_SECTOR_SIZE - METADATA_SIZE ->
  flash_write_safe st offset data data_len =
  (flash_write_safe_struct st (flash_offset_of offset) (mkFlashData 0 0 data_len data), Ok).
Proof.
  intros Hd Hn Hb Hl. unfold flash_write_safe.
  rewrite (proj2 (Z.eqb_neq _ _) Hd), (proj2 (Z.eqb_neq _ _) Hn). cbn [orb].
  block_guards Hb.
  replace (data_len >? FLASH_SECTOR_SIZE - METADATA_SIZE) with false
    by (symmetry; rewrite Z.gtb_ltb; apply Z.ltb_ge; lia).
  exact (f_equal (fun g => (g, Ok)) eq_refl).
Qed.

Lemma flash_write_safe_reject (st : state) (offset data data_len : Z) :
  snd (flash_write_safe st offset data data_len) <> Ok ->
  fst (flash_write_safe st offset data data_len) = st.
Proof.
  unfold flash_write_safe.
  destruct (_ || _); [reflexivity|].
  destruct (negb _); [reflexivity|].
  destruct (_ >? _); [reflexivity|].
  destruct (_ >? _); [reflexivity|]. cbn. congruence.
Qed.

Lemma flash_write_safe_ok (st : state) (offset data data_len : Z) :
  snd (flash_write_safe st offset data data_len) = Ok ->
  data <> NULL /\ data_len <> 0 /\ block_ok offset /\
  data_len <= FLASH_SECTOR_SIZE - METADATA_SIZE /\
  fst (flash_write_safe st offset data data_len) =
  flash_write_safe_struct st (flash_offset_of offset) (mkFlashData 0 0 data_len data).
Proof.
  unfold flash_write_safe.
  destruct (data =? NULL) eqn:E1; cbn [orb]; [discriminate|].
  destruct (data_len =? 0) eqn:E2; [discriminate|].
  destruct (negb _) eqn:E3; [discriminate|].
  destruct (data_len >? _) eqn:E4; [discriminate|].
  destruct (_ + METADATA_SIZE >? _) eqn:E5; [discriminate|].
  intros _. apply Z.eqb_neq in E1, E2.
  rewrite Z.gtb_ltb, Z.ltb_ge in E4.
  repeat split; auto; try (apply block_ok_dec; auto).
Qed.

Lemma flash_erase_safe_accept (st : state) (offset : Z) : block_ok offset ->
  let fo := flash_offset_of offset in
  flash_erase_safe st offset =
  (log (flash_range_program
          (flash_range_erase (log st EvDisableInts) fo FLASH_SECTOR_SIZE) fo
          (struct_bytes (restored_metadata st offset))) EvRestoreInts, Ok).
Proof.
  intros H fo. pose proof (block_ok_range _ H) as (R1 & R2 & R3).
  pose proof (flash_offset_range offset).
  unfold flash_erase_safe. block_guards H.
  rewrite sector_mask by (try apply flash_offset_range; apply H).
  replace (flash_offset_of offset >=? flash_bound) with false
    by (symmetry; rewrite Z.geb_leb; apply Z.leb_gt; unfold FLASH_SECTOR_SIZE in *; lia).
  unfold restored_metadata, hdr.
  rewrite read_struct_xip by lia. reflexivity.
Qed.

Lemma flash_erase_safe_reject (st : state) (offset : Z) : ~ block_ok offset ->
  exists s, flash_erase_safe st offset = (st, s) /\ s <> Ok.
Proof.
  intros H. unfold flash_erase_safe.
  destruct (negb _) eqn:E1; [eexists; split; [reflexivity | discriminate]|].
  destruct (_ >? _) eqn:E2; [eexists; split; [reflexivity | discriminate]|].
  exfalso. apply H, block_ok_dec; auto.
Qed.

Lemma erase_flash (st : state) (offset : Z) : block_ok offset ->
  flash (fst (flash_erase_safe st offset)) =
  flash (flash_range_program
          (flash_range_erase st (flash_offset_of offset) FLASH_SECTOR_SIZE)
          (flash_offset_of offset) (struct_bytes (restored_metadata st offset))).
Proof. intros H. rewrite flash_erase_safe_accept by exact H. reflexivity. Qed.

Lemma erase_header (st : state) (offset : Z) : block_ok offset -> flash_wf st ->
  hdr (fst (flash_erase_safe st offset)) offset = restored_metadata st offset.
Proof.
  intros H Hw. pose proof (block_ok_range _ H) as (R1 & R2 & R3).
  unfold hdr at 1. rewrite erase_flash by exact H.
  apply header_erase_program; cbn; unfold NULL; try lia.
  - unfold byte_ok; lia.
  - apply le32_at_range, Hw.
Qed.

Lemma erase_frame (st : state) (offset a : Z) : block_ok offset ->
  ~ (flash_offset_of offset <= a < flash_offset_of offset + FLASH_SECTOR_SIZE) ->
  flash (fst (flash_erase_safe st offset)) a = flash st a.
Proof.
  intros H Ha. rewrite erase_flash by exact H. apply erase_program_frame; auto.
  - rewrite struct_bytes_length. lia.
  - apply struct_bytes_ok. cbn. unfold byte_ok; lia.
Qed.

Ltac split_ifs :=
  repeat match goal with
         | |- context [if ?b then _ else _] => destruct b
         end.

Lemma erase_ram (st : state) (offset : Z) :
  ram (fst (flash_erase_safe st offset)) = ram st.
Proof. unfold flash_erase_safe. split_ifs; reflexivity. Qed.

Lemma erase_wf (st : state) (offset : Z) :
  flash_wf st -> flash_wf (fst (flash_erase_safe st offset)).
Proof.
  intros Hw a. destruct (block_ok_decide offset) as [H | H].
  - rewrite erase_flash by exact H. rewrite erase_program_flash.
    + destruct (in_range _ _ _); [apply nth_byte_ok, struct_bytes_ok; cbn|].
      * unfold byte_ok; lia.
      * destruct (in_range _ _ _); [unfold byte_ok; lia | apply Hw].
    + rewrite struct_bytes_length. lia.
    + apply struct_bytes_ok. cbn. unfold byte_ok; lia.
  - destruct (flash_erase_safe_reject st offset H) as (s & -> & _). apply Hw.
Qed.

Lemma flash_read_safe_flash (st : state) (offset buffer buffer_len : Z) :
  flash (fst (flash_read_safe st offset buffer buffer_len)) = flash st.
Proof. unfold flash_read_safe. split_ifs; reflexivity. Qed.

Lemma flash_read_safe_accept (st : state) (offset buffer buffer_len : Z) :
  block_ok offset ->
  let h := hdr st offset in
  flash_read_safe st offset buffer buffer_len =
  if (valid h =? 0) || (data_len h =? 0) then (st, InvalidOrUninitialized)
  else (memcpy st buffer (data_ptr h)
          (if buffer_len >? data_len h then data_len h else buffer_len), Ok).
Proof.
  intros H h. pose proof (block_ok_range _ H) as (R1 & R2 & R3).
  unfold flash_read_safe, flash_read_safe_struct. block_guards H.
  rewrite read_struct_xip by lia. reflexivity.
Qed.

Lemma write_then_load (st : state) (offset data n a : Z) :
  block_ok offset ->
  ~ (XIP_BASE + flash_offset_of offset <= a
     < XIP_BASE + flash_offset_of offset + FLASH_SECTOR_SIZE) ->
  load (fst (flash_write_safe st offset data n)) a = load st a.
Proof.
  intros Hb Ha.
  destruct (status_eq_dec (snd (flash_write_safe st offset data n)) Ok) as [E | E].
  - destruct (flash_write_safe_ok _ _ _ _ E) as (_ & _ & _ & _ & ->).
    unfold load. destruct (in_range _ _ _).
    + apply write_struct_frame. lia.
    + reflexivity.
  - rewrite flash_write_safe_reject by exact E. reflexivity.
Qed.

Lemma hdr_frame (st st' : state) (offset : Z) :
  (forall k, 0 <= k < 16 ->
     flash st' (flash_offset_of offset + k) = flash st (flash_offset_of offset + k)) ->
  hdr st' offset = hdr st offset.
Proof.
  intros H. unfold hdr.
  rewrite (flash_header_ext (flash st') (fun k => flash st (flash_offset_of offset + k)))
    by exact H.
  symmetry. apply flash_header_ext. reflexivity.
Qed.

Lemma exec_wf (st : state) (x : op) : flash_wf st -> flash_wf (fst (exec st x)).
Proof.
  intros Hw. destruct x as [o d n | o b n | o | o | o]; cbn [exec fst].
  - destruct (status_eq_dec (snd (flash_write_safe st o d n)) Ok) as [E | E].
    + destruct (flash_write_safe_ok _ _ _ _ E) as (_ & _ & _ & _ & ->).
      apply write_struct_wf, Hw.
    + rewrite flash_write_safe_reject by exact E. exact Hw.
  - intros a. rewrite flash_read_safe_flash. apply Hw.
  - apply erase_wf, Hw.
  - exact Hw.
  - exact Hw.
Qed.

Lemma run_wf (st : state) (ops : list op) : flash_wf st -> flash_wf (run st ops).
Proof.
  revert st. induction ops as [|x ops IH]; intros st Hw; cbn; auto.
  apply IH, exec_wf, Hw.
Qed.

Lemma block_ok_same (o o' : Z) :
  flash_offset_of o' = flash_offset_of o -> block_ok o -> block_ok o'.
Proof. unfold block_ok. intros ->. auto. Qed.

Lemma hdr_same (st : state) (o o' : Z) :
  flash_offset_of o' = flash_offset_of o -> hdr st o' = hdr st o.
Proof. unfold hdr. intros ->. reflexivity. Qed.

Lemma write_hdr_other (st : state) (o o' d n : Z) :
  block_ok o -> flash_offset_of o' <> flash_offset_of o ->
  hdr (fst (flash_write_safe st o' d n)) o = hdr st o.
Proof.
  intros Hb Hne.
  destruct (status_eq_dec (snd (flash_write_safe st o' d n)) Ok) as [E | E].
  - destruct (flash_write_safe_ok _ _ _ _ E) as (_ & _ & Hb' & _ & ->).
    apply hdr_frame. intros k Hk. apply write_struct_frame.
    apply blocks_disjoint; auto.
  - rewrite flash_write_safe_reject by exact E. reflexivity.
Qed.

Lemma write_hdr_same (st : state) (o o' d n : Z) :
  block_ok o -> flash_offset_of o' = flash_offset_of o ->
  0 <= d < 2 ^ 32 -> 0 <= n < 2 ^ 32 ->
  snd (flash_write_safe st o' d n) = Ok ->
  hdr (fst (flash_write_safe st o' d n)) o =
  mkFlashData 1 (next_write_count (write_count (hdr st o))) n d.
Proof.
  intros Hb Hs Hd Hn E.
  destruct (flash_write_safe_ok _ _ _ _ E) as (_ & _ & Hb' & _ & ->).
  rewrite Hs.
  apply write_struct_header; auto.
Qed.

Lemma erase_hdr_other (st : state) (o o' : Z) :
  block_ok o -> flash_offset_of o' <> flash_offset_of o ->
  hdr (fst (flash_erase_safe st o')) o = hdr st o.
Proof.
  intros Hb Hne. destruct (block_ok_decide o') as [Hb' | Hb'].
  - apply hdr_frame. intros k Hk. apply erase_frame; auto.
    apply blocks_disjoint; auto.
  - destruct (flash_erase_safe_reject st o' Hb') as (s & -> & _). reflexivity.
Qed.

Lemma erase_hdr_same (st : state) (o o' : Z) :
  block_ok o -> flash_offset_of o' = flash_offset_of o -> flash_wf st ->
  hdr (fst (flash_erase_safe st o')) o = restored_metadata st o.
Proof.
  intros Hb Hs Hw.
  rewrite <- (hdr_same _ _ _ Hs), erase_header; auto.
  - unfold restored_metadata. rewrite (hdr_same _ _ _ Hs). reflexivity.
  - apply (block_ok_same o); auto.
Qed.

Lemma next_write_count_spec (c : Z) : 0 <= c < 2 ^ 32 ->
  next_write_count c = if c =? WC_SENTINEL then 1 else c + 1.
Proof.
  intros Hc. unfold next_write_count, u32.
  destruct (c =? WC_SENTINEL) eqn:E.
  - reflexivity.
  - apply Z.eqb_neq in E. unfold WC_SENTINEL in E. apply Z.mod_small. lia.
Qed.

Lemma hdr_write_count_range (st : state) (o : Z) : flash_wf st ->
  0 <= write_count (hdr st o) < 2 ^ 32.
Proof. intros Hw. apply le32_at_range, Hw. Qed.

(** ** Claims *)

(** C1 (as corrected).  For a payload of [n] bytes at a non-null address
    [data], [0 < n <= FLASH_SECTOR_SIZE - METADATA_SIZE], at an offset that
    passes the alignment and bounds checks, [flash_write_safe] followed by
    [flash_read_safe] into a buffer of [buffer_len >= n] bytes succeeds and
    leaves the first [n] bytes of the buffer equal to the payload as it
    was before the write, provided the payload does not lie in the
    memory-mapped image [XIP_BASE + flash_offset_of offset .. + 4096) of
    the sector being rewritten: the write stores only the pointer [data]
    in the header, and the read copies from that pointer. *)
Theorem write_read_roundtrip (st : state) (offset data n buffer buffer_len : Z) :
  block_ok offset ->
  0 < n <= FLASH_SECTOR_SIZE - METADATA_SIZE ->
  0 < data < 2 ^ 32 ->
  n <= buffer_len ->
  (forall i, 0 <= i < n ->
     ~ (XIP_BASE + flash_offset_of offset <= data + i
        < XIP_BASE + flash_offset_of offset + FLASH_SECTOR_SIZE)) ->
  let st1 := fst (flash_write_safe st offset data n) in
  let r := flash_read_safe st1 offset buffer buffer_len in
  snd r = Ok /\ forall i, 0 <= i < n -> ram (fst r) (buffer + i) = load st (data + i).
Proof.
  intros Hb Hn Hd Hl Hp st1 r.
  assert (Hw : flash_write_safe st offset data n =
    (flash_write_safe_struct st (flash_offset_of offset) (mkFlashData 0 0 n data), Ok))
    by (apply flash_write_safe_accept; [unfold NULL; lia | lia | exact Hb | lia]).
  assert (Hh : hdr st1 offset =
    mkFlashData 1 (next_write_count (write_count (hdr st offset))) n data).
  { unfold st1. rewrite Hw. cbn [fst].
    apply write_struct_header; [exact Hb | ..]; cbn;
      unfold FLASH_SECTOR_SIZE, METADATA_SIZE in *; lia. }
  assert (Hr : r = (memcpy st1 buffer data n, Ok)).
  { unfold r. rewrite flash_read_safe_accept by exact Hb. rewrite Hh. cbn -[Z.eqb].
    replace (n =? 0) with false by (symmetry; apply Z.eqb_neq; lia).
    cbn. f_equal. f_equal. destruct (buffer_len >? n) eqn:E; auto.
    rewrite Z.gtb_ltb, Z.ltb_ge in E. lia. }
  rewrite Hr. split; [reflexivity|].
  intros i Hi. cbn. rewrite in_range_true by lia.
  replace (data + (buffer + i - buffer)) with (data + i) by ring.
  unfold st1. apply write_then_load; auto.
Qed.

(** C1 fails without the hypothesis on where the payload lives: the
    write stores only the pointer [data], so a payload read from the
    memory-mapped sector of the block itself (here its own 16 header bytes,
    [XIP_BASE + flash_offset_of 4096]) is overwritten by the new header, and
    the read hands back the new header ([valid = 1]) instead of the erased
    bytes ([0xFF]) that were there before the write. *)
Lemma write_own_header_not_roundtrip :
  let p := XIP_BASE + flash_offset_of 4096 in
  let st1 := fst (flash_write_safe demo_state 4096 p 16) in
  let r := flash_read_safe st1 4096 536875008 16 in
  snd (flash_write_safe demo_state 4096 p 16) = Ok /\ snd r = Ok /\
  load demo_state p = 255 /\ ram (fst r) 536875008 = 1.
Proof. vm_compute. repeat split. Qed.

(** C2 (what the code does).  In every reachable state, one public
    operation changes the value of [get_flash_write_count] for a block only
    when it is a successful [flash_write_safe] to that block: the value then
    goes from [c] to [c + 1], except that the erased-block sentinel
    [4294967295] goes to [1].  Every other operation, [flash_erase_safe] of
    that block included, leaves the value unchanged.  The exception comes
    from [get_flash_write_count] returning the raw sentinel on a
    never-written block, where its documentation promises 0. *)
Theorem write_count_step (st0 : state) (pre : list op) (o : Z) (x : op) :
  flash_wf st0 -> block_ok o -> op_wt x ->
  let st := run st0 pre in
  let c := fst (get_flash_write_count st o) in
  let r := exec st x in
  fst (get_flash_write_count (fst r) o) =
  if is_write_to o x && is_ok (snd r) then (if c =? WC_SENTINEL then 1 else c + 1)
  else c.
Proof.
  intros Hw0 Hb Hx st c r.
  assert (Hw : flash_wf st) by (apply run_wf, Hw0).
  unfold c, r. rewrite !get_flash_write_count_ok by exact Hb. cbn [fst].
  destruct x as [o' d n | o' b n | o' | o' | o']; cbn [exec is_write_to andb].
  - destruct (Z.eqb_spec (flash_offset_of o') (flash_offset_of o)) as [Hs | Hs].
    + destruct (status_eq_dec (snd (flash_write_safe st o' d n)) Ok) as [E | E].
      * rewrite E. cbn [is_ok].
        rewrite (write_hdr_same st o o' d n Hb Hs (proj1 Hx) (proj2 Hx) E).
        cbn [write_count]. apply next_write_count_spec, hdr_write_count_range, Hw.
      * replace (is_ok (snd (flash_write_safe st o' d n))) with false
          by (destruct (snd _); auto; contradiction).
        rewrite flash_write_safe_reject by exact E. reflexivity.
    + rewrite write_hdr_other by assumption. reflexivity.
  - unfold hdr. rewrite flash_read_safe_flash. reflexivity.
  - destruct (Z.eq_dec (flash_offset_of o') (flash_offset_of o)) as [Hs | Hs].
    + rewrite erase_hdr_same by assumption. reflexivity.
    + rewrite erase_hdr_other by assumption. reflexivity.
  - reflexivity.
  - reflexivity.
Qed.

Lemma erase_erases (st : state) (o : Z) : block_ok o -> flash_wf st ->
  snd (flash_erase_safe st o) = Ok /\ erased_at (fst (flash_erase_safe st o)) o.
Proof.
  intros Hb Hw. split.
  - rewrite flash_erase_safe_accept by exact Hb. reflexivity.
  - unfold erased_at. rewrite erase_header by assumption. cbn. auto.
Qed.

Lemma erased_observed (st : state) (o : Z) : block_ok o -> erased_at st o ->
  get_flash_data_length st o = (0, Ok) /\
  forall b n, flash_read_safe st o b n = (st, InvalidOrUninitialized).
Proof.
  intros Hb [Hv Hl]. split.
  - rewrite get_flash_data_length_ok, Hl by exact Hb. reflexivity.
  - intros b n. rewrite flash_read_safe_accept by exact Hb. rewrite Hv. reflexivity.
Qed.

Lemma erased_preserved (st : state) (o : Z) (x : op) :
  block_ok o -> flash_wf st -> erased_at st o ->
  is_write_to o x && is_ok (snd (exec st x)) = false ->
  erased_at (fst (exec st x)) o.
Proof.
  intros Hb Hw He Hx. destruct x as [o' d n | o' b n | o' | o' | o'];
    cbn [exec fst is_write_to andb] in *.
  - destruct (Z.eqb_spec (flash_offset_of o') (flash_offset_of o)) as [Hs | Hs].
    + destruct (status_eq_dec (snd (flash_write_safe st o' d n)) Ok) as [E | E].
      * rewrite E in Hx. discriminate.
      * rewrite flash_write_safe_reject by exact E. exact He.
    + unfold erased_at. rewrite write_hdr_other by assumption. exact He.
  - unfold erased_at, hdr. rewrite flash_read_safe_flash. exact He.
  - destruct (Z.eq_dec (flash_offset_of o') (flash_offset_of o)) as [Hs | Hs].
    + unfold erased_at. rewrite erase_hdr_same by assumption. cbn. auto.
    + unfold erased_at. rewrite erase_hdr_other by assumption. exact He.
  - exact He.
  - exact He.
Qed.

(** C3 (post-erase state).  After [flash_erase_safe] of an accepted block,
    and after any further run of public operations with no successful
    [flash_write_safe] to that block, [get_flash_data_length] returns 0 and
    every [flash_read_safe] of the block takes the
    invalid-or-uninitialised exit and changes nothing (in particular copies
    nothing into the buffer). *)
Theorem erase_then_empty (st0 : state) (o : Z) (post : list op) :
  flash_wf st0 -> block_ok o ->
  let st1 := fst (flash_erase_safe st0 o) in
  writes_to o st1 post = false ->
  let st := run st1 post in
  get_flash_data_length st o = (0, Ok) /\
  forall buffer n, flash_read_safe st o buffer n = (st, InvalidOrUninitialized).
Proof.
  intros Hw0 Hb st1 Hno st.
  apply erased_observed; [exact Hb|].
  assert (H1 : flash_wf st1 /\ erased_at st1 o).
  { split; [apply erase_wf, Hw0 | apply (erase_erases st0 o Hb Hw0)]. }
  unfold st. clear st. destruct H1 as [Hw1 He1]. revert Hno Hw1 He1.
  generalize st1. clear st1.
  induction post as [|x post IH]; intros s Hno Hw He; cbn in *; auto.
  apply orb_false_iff in Hno. destruct Hno as [Hx Hno].
  apply IH; auto.
  - apply exec_wf, Hw.
  - apply erased_preserved; auto.
Qed.

Lemma misaligned_flash_offset (offset : Z) :
  (FLASH_TARGET_OFFSET + offset) mod FLASH_SECTOR_SIZE <> 0 ->
  negb (flash_offset_of offset mod FLASH_SECTOR_SIZE =? 0) = true.
Proof.
  intros H. unfold flash_offset_of, u32.
  rewrite Z.mod_mod_divide by (exists 1048576; reflexivity).
  apply negb_true_iff, Z.eqb_neq, H.
Qed.

(** C4 (as corrected).  For an offset whose absolute address
    [FLASH_TARGET_OFFSET + offset] is not a multiple of the sector size,
    every public operation returns at once with the state (flash, RAM and
    the trace of primitive and interrupt calls) unchanged: [flash_read_safe]
    and [flash_erase_safe] take the misaligned-offset exit, the two queries
    return 0 from it, and [flash_write_safe] takes it too unless its payload
    is NULL or empty, in which case the earlier null-or-empty check fires. *)
Theorem misaligned_rejected (st : state) (offset : Z) :
  (FLASH_TARGET_OFFSET + offset) mod FLASH_SECTOR_SIZE <> 0 ->
  (forall data data_len,
     flash_write_safe st offset data data_len =
     (st, if (data =? NULL) || (data_len =? 0) then NullOrEmptyPayload
          else MisalignedOffset)) /\
  (forall buffer buffer_len,
     flash_read_safe st offset buffer buffer_len = (st, MisalignedOffset)) /\
  flash_erase_safe st offset = (st, MisalignedOffset) /\
  get_flash_write_count st offset = (0, MisalignedOffset) /\
  get_flash_data_length st offset = (0, MisalignedOffset).
Proof.
  intros H. pose proof (misaligned_flash_offset _ H) as E.
  unfold flash_write_safe, flash_read_safe, flash_erase_safe,
    get_flash_write_count, get_flash_data_length.
  rewrite E. repeat split; try reflexivity.
  intros data data_len. destruct (_ || _); reflexivity.
Qed.

(** C4 fails as stated: a misaligned write with a NULL payload reports the
    null-or-empty-payload error, not the misaligned-offset one. *)
Lemma misaligned_null_write_not_misaligned :
  (FLASH_TARGET_OFFSET + 6096) mod FLASH_SECTOR_SIZE <> 0 /\
  snd (flash_write_safe (mkState fresh_flash (fun _ => 0) []) 6096 NULL 100)
  = NullOrEmptyPayload.
Proof. split; [vm_compute; discriminate | reflexivity]. Qed.

Example serialize_demo :
  let m := fun a => if in_range 100 a 103 then a - 90 else 0 in
  let d := mkFlashData 1 258 3 100 in
  let m' := fst (serialize_flash_data m d 200 12) in
  map m' [199; 200; 201; 202; 203; 204; 205; 206; 207; 208; 209; 210; 211; 212; 213]
  = [0; 1; 2; 1; 0; 0; 3; 0; 0; 0; 10; 11; 12; 0; 0] /\
  deserialize_flash_data m' 200 true = mkDecoded 1 258 3 (Some [10; 11; 12]).
Proof. split; reflexivity. Qed.

Lemma serialize_header_byte (m : Z -> Z) (d : flash_data) (b i : Z) :
  0 <= i < 9 -> 0 <= data_len d ->
  memcpy_mem
    (store_bytes (store_bytes (store_bytes m b [valid d]) (b + 1)
       (le32_bytes (write_count d))) (b + 5) (le32_bytes (data_len d)))
    (b + 9) (data_ptr d) (data_len d) (b + i)
  = nth (Z.to_nat i) (encode m d) 0.
Proof.
  intros Hi Hl. unfold memcpy_mem, store_bytes.
  rewrite in_range_false by lia.
  change (Z.of_nat (length (le32_bytes ?x))) with 4.
  change (Z.of_nat (length [?x])) with 1.
  replace (b + i - (b + 5)) with (i - 5) by ring.
  replace (b + i - (b + 1)) with (i - 1) by ring.
  replace (b + i - b) with i by ring.
  assert (i = 0 \/ i = 1 \/ i = 2 \/ i = 3 \/ i = 4 \/ i = 5 \/ i = 6 \/ i = 7 \/ i = 8)
    as Hc by lia.
  destruct Hc as [->|[->|[->|[->|[->|[->|[->|[->| ->]]]]]]]];
    repeat first [rewrite in_range_true by lia | rewrite in_range_false by lia];
    reflexivity.
Qed.

Lemma bytes_at_nth (m : Z -> Z) (p n : Z) (k : nat) :
  (k < Z.to_nat n)%nat -> nth k (bytes_at m p n) 0 = m (p + Z.of_nat k).
Proof.
  intros Hk. unfold bytes_at.
  set (f := fun i : nat => m (p + Z.of_nat i)).
  rewrite (nth_indep _ 0 (f 0%nat)) by (rewrite length_map, length_seq; exact Hk).
  rewrite map_nth, seq_nth by exact Hk. reflexivity.
Qed.

Lemma bytes_at_length (m : Z -> Z) (p n : Z) : length (bytes_at m p n) = Z.to_nat n.
Proof. unfold bytes_at. rewrite length_map, length_seq. reflexivity. Qed.

Lemma bytes_at_ext (m m' : Z -> Z) (p p' n : Z) :
  (forall k, 0 <= k < n -> m (p + k) = m' (p' + k)) ->
  bytes_at m p n = bytes_at m' p' n.
Proof.
  intros H. unfold bytes_at. apply map_ext_in. intros k Hk.
  apply in_seq in Hk. apply H. lia.
Qed.

Lemma serialize_payload_byte (m : Z -> Z) (d : flash_data) (b j : Z) :
  0 <= j < data_len d ->
  ~ (b <= data_ptr d + j < b + 9) ->
  memcpy_mem
    (store_bytes (store_bytes (store_bytes m b [valid d]) (b + 1)
       (le32_bytes (write_count d))) (b + 5) (le32_bytes (data_len d)))
    (b + 9) (data_ptr d) (data_len d) (b + 9 + j)
  = nth (Z.to_nat (9 + j)) (encode m d) 0.
Proof.
  intros Hj Hd. unfold memcpy_mem, store_bytes.
  rewrite in_range_true by lia.
  change (Z.of_nat (length (le32_bytes ?x))) with 4.
  change (Z.of_nat (length [?x])) with 1.
  rewrite !in_range_false by lia.
  unfold encode. rewrite !app_assoc, app_nth2.
  - rewrite !length_app. change (length (le32_bytes ?x)) with 4%nat. cbn [length].
    replace (Z.to_nat (9 + j) - (1 + 4 + 4))%nat with (Z.to_nat j) by lia.
    rewrite bytes_at_nth by lia. f_equal. lia.
  - rewrite !length_app. change (length (le32_bytes ?x)) with 4%nat. cbn [length]. lia.
Qed.

Lemma serialize_frame (m : Z -> Z) (d : flash_data) (b a : Z) :
  0 <= data_len d -> ~ (b <= a < b + 9 + data_len d) ->
  memcpy_mem
    (store_bytes (store_bytes (store_bytes m b [valid d]) (b + 1)
       (le32_bytes (write_count d))) (b + 5) (le32_bytes (data_len d)))
    (b + 9) (data_ptr d) (data_len d) a
  = m a.
Proof.
  intros Hl Ha. unfold memcpy_mem, store_bytes.
  change (Z.of_nat (length (le32_bytes ?x))) with 4.
  change (Z.of_nat (length [?x])) with 1.
  rewrite !in_range_false by lia. reflexivity.
Qed.

Lemma le32_bytes_decode (x : Z) : 0 <= x < 2 ^ 32 ->
  le32_at (fun i => nth (Z.to_nat i) (le32_bytes x) 0) 0 = x.
Proof.
  intros Hx. unfold le32_at, le32_bytes.
  change (Z.to_nat 0) with 0%nat. change (Z.to_nat (0 + 1)) with 1%nat.
  change (Z.to_nat (0 + 2)) with 2%nat. change (Z.to_nat (0 + 3)) with 3%nat.
  cbn [nth]. apply le32_split, Hx.
Qed.

Lemma serialize_accept (m : Z -> Z) (d : flash_data) (b size : Z) :
  data_ptr d <> NULL -> 0 < data_len d ->
  SERIALIZED_HEADER_SIZE + data_len d <= size ->
  serialize_flash_data m d b size =
  (memcpy_mem
    (store_bytes (store_bytes (store_bytes m b [valid d]) (b + 1)
       (le32_bytes (write_count d))) (b + 5) (le32_bytes (data_len d)))
    (b + 9) (data_ptr d) (data_len d), Ok).
Proof.
  intros Hp Hl Hs. unfold serialize_flash_data, SERIALIZED_HEADER_SIZE in *.
  replace (size <? 1 + 4 + 4 + data_len d) with false by (symmetry; apply Z.ltb_ge; lia).
  rewrite (proj2 (Z.eqb_neq _ _) Hp).
  replace (data_len d >? 0) with true by (symmetry; rewrite Z.gtb_ltb; apply Z.ltb_lt; lia).
  reflexivity.
Qed.

Lemma encode_length (m : Z -> Z) (d : flash_data) : 0 <= data_len d ->
  length (encode m d) = Z.to_nat (SERIALIZED_HEADER_SIZE + data_len d).
Proof.
  intros Hl. unfold encode, SERIALIZED_HEADER_SIZE.
  rewrite !length_app, bytes_at_length. cbn [length le32_bytes]. lia.
Qed.

(** C5 (codec round trip).  For a record with a non-null payload pointer,
    [0 < data_len], whose payload is a separate object from a buffer of at
    least [SERIALIZED_HEADER_SIZE + data_len] bytes, [serialize_flash_data]
    succeeds and writes exactly the [SERIALIZED_HEADER_SIZE + data_len]
    bytes [valid, write_count, data_len, payload] at the start of the
    buffer (nothing else changes), and [deserialize_flash_data] of that
    buffer, when its [malloc] succeeds, gives back the record's valid flag,
    write count, length and payload bytes. *)
Theorem serialize_deserialize_roundtrip (m : Z -> Z) (d : flash_data) (b size : Z) :
  data_ptr d <> NULL -> 0 < data_len d < 2 ^ 32 ->
  byte_ok (valid d) -> 0 <= write_count d < 2 ^ 32 ->
  SERIALIZED_HEADER_SIZE + data_len d <= size ->
  (forall k, 0 <= k < data_len d ->
     ~ (b <= data_ptr d + k < b + SERIALIZED_HEADER_SIZE + data_len d)) ->
  let r := serialize_flash_data m d b size in
  snd r = Ok /\
  length (encode m d) = Z.to_nat (SERIALIZED_HEADER_SIZE + data_len d) /\
  (forall i, 0 <= i < SERIALIZED_HEADER_SIZE + data_len d ->
     fst r (b + i) = nth (Z.to_nat i) (encode m d) 0) /\
  (forall a, ~ (b <= a < b + SERIALIZED_HEADER_SIZE + data_len d) -> fst r a = m a) /\
  deserialize_flash_data (fst r) b true =
  mkDecoded (valid d) (write_count d) (data_len d)
            (Some (bytes_at m (data_ptr d) (data_len d))).
Proof.
  intros Hp Hl Hv Hw Hs Hdis r.
  unfold r. rewrite serialize_accept by (auto; lia). cbn [fst snd].
  unfold SERIALIZED_HEADER_SIZE in *.
  set (m' := memcpy_mem _ _ _ _).
  assert (Hbytes : forall i, 0 <= i < 9 + data_len d ->
                     m' (b + i) = nth (Z.to_nat i) (encode m d) 0).
  { intros i Hi. destruct (Z.lt_ge_cases i 9) as [Hi9 | Hi9].
    - apply serialize_header_byte; lia.
    - replace (b + i) with (b + 9 + (i - 9)) by ring.
      replace i with (9 + (i - 9)) at 2 by ring.
      apply serialize_payload_byte; [lia|].
      pose proof (Hdis (i - 9) ltac:(lia)). lia. }
  split; [reflexivity|]. split; [apply encode_length; lia|].
  split; [exact Hbytes|]. split.
  { intros a Ha. apply serialize_frame; lia. }
  assert (H0 : m' b = valid d).
  { rewrite <- (Z.add_0_r b), Hbytes by lia. reflexivity. }
  assert (Hwc : le32_at m' (b + 1) = write_count d).
  { transitivity (le32_at (fun i => nth (Z.to_nat i) (le32_bytes (write_count d)) 0) 0);
      [| apply le32_bytes_decode, Hw].
    apply le32_at_ext. intros k Hk.
    rewrite <- Z.add_assoc, Hbytes by lia. unfold encode.
    assert (k = 0 \/ k = 1 \/ k = 2 \/ k = 3) as [->|[->|[->| ->]]] by lia;
      reflexivity. }
  assert (Hlen : le32_at m' (b + 5) = data_len d).
  { transitivity (le32_at (fun i => nth (Z.to_nat i) (le32_bytes (data_len d)) 0) 0);
      [| apply le32_bytes_decode; lia].
    apply le32_at_ext. intros k Hk.
    rewrite <- Z.add_assoc, Hbytes by lia. unfold encode.
    assert (k = 0 \/ k = 1 \/ k = 2 \/ k = 3) as [->|[->|[->| ->]]] by lia;
      reflexivity. }
  unfold deserialize_flash_data. rewrite H0, Hwc, Hlen. do 2 f_equal.
  apply bytes_at_ext. intros k Hk.
  rewrite <- Z.add_assoc, Hbytes by lia. unfold encode.
  replace (Z.to_nat (9 + k)) with (length ([valid d] ++ le32_bytes (write_count d)
    ++ le32_bytes (data_len d)) + Z.to_nat k)%nat
    by (rewrite !length_app; cbn [length le32_bytes]; lia).
  rewrite !app_assoc, app_nth2_plus, bytes_at_nth by lia.
  f_equal; lia.
Qed.

(** C6 (as corrected).  [deserialize_flash_data] takes no buffer length and
    has no failing exit: it returns a record for every buffer.  What it
    reads is the 9-byte header and then exactly the [data_len] bytes after
    it, [data_len] being the one it decoded: two memories that agree on
    those bytes decode to the same record, and the payload (when [malloc]
    succeeds) is the list of bytes [buffer + 9 .. buffer + 9 + data_len). *)
Theorem deserialize_reads_record_only (m m' : Z -> Z) (b : Z) (malloc_ok : bool) :
  let len := le32_at m (b + 5) in
  (forall a, b <= a < b + SERIALIZED_HEADER_SIZE \/
             b + SERIALIZED_HEADER_SIZE <= a < b + SERIALIZED_HEADER_SIZE + len ->
             m a = m' a) ->
  deserialize_flash_data m b malloc_ok = deserialize_flash_data m' b malloc_ok /\
  d_data_len (deserialize_flash_data m b malloc_ok) = len /\
  d_payload (deserialize_flash_data m b malloc_ok) =
  (if malloc_ok then Some (bytes_at m (b + SERIALIZED_HEADER_SIZE) len) else None).
Proof.
  intros len H. unfold SERIALIZED_HEADER_SIZE in H.
  assert (Hwc : le32_at m (b + 1) = le32_at m' (b + 1)).
  { apply le32_at_ext. intros i Hi. apply H. lia. }
  assert (Hl : le32_at m (b + 5) = le32_at m' (b + 5)).
  { apply le32_at_ext. intros i Hi. apply H. lia. }
  split; [|split; reflexivity].
  unfold deserialize_flash_data. rewrite <- Hwc, <- Hl, (H b) by lia.
  destruct malloc_ok; [|reflexivity].
  do 2 f_equal. apply bytes_at_ext. intros k Hk. apply H. fold len. lia.
Qed.

(** C6 fails as stated: a buffer of 3 bytes, shorter than the header, is
    not refused; [deserialize_flash_data] decodes a record from it and from
    the bytes that follow it in memory. *)
Lemma deserialize_short_buffer_decoded :
  let m1 := fun _ : Z => 0 in
  let m2 := fun a => if a =? 103 then 1 else 0 in
  (forall a, 100 <= a < 103 -> m1 a = m2 a) /\
  deserialize_flash_data m1 100 true = mkDecoded 0 0 0 (Some []) /\
  deserialize_flash_data m2 100 true = mkDecoded 0 65536 0 (Some []).
Proof.
  intros m1 m2. split; [|split; reflexivity].
  intros a Ha. unfold m1, m2. destruct (Z.eqb_spec a 103); lia.
Qed.

(** C7 (first write).  On a block whose sector bytes are all [0xFF] (never
    programmed), a successful [flash_write_safe] reads the sentinel write
    count, treats it as 0 and stores write count 1, which
    [get_flash_write_count] then returns. *)
Theorem first_write_count_one (st : state) (o data n : Z) :
  block_ok o ->
  (forall k, 0 <= k < FLASH_SECTOR_SIZE -> flash st (flash_offset_of o + k) = 255) ->
  0 <= data < 2 ^ 32 -> 0 <= n < 2 ^ 32 ->
  snd (flash_write_safe st o data n) = Ok ->
  write_count (hdr (fst (flash_write_safe st o data n)) o) = 1 /\
  get_flash_write_count (fst (flash_write_safe st o data n)) o = (1, Ok).
Proof.
  intros Hb Hf Hd Hn E.
  assert (Hc : write_count (hdr st o) = WC_SENTINEL).
  { unfold hdr, flash_header, le32_at. cbn [write_count].
    rewrite <- !Z.add_assoc, !Hf by (unfold FLASH_SECTOR_SIZE; lia). reflexivity. }
  rewrite get_flash_write_count_ok by exact Hb.
  rewrite (write_hdr_same st o o data n Hb eq_refl Hd Hn E). cbn [write_count].
  rewrite Hc. split; reflexivity.
Qed.

(** C8 (as corrected).  On an accepted block whose header is valid with a
    non-zero [data_len], [flash_read_safe] copies exactly
    [min(buffer_len, data_len)] bytes into the buffer, read from the address
    stored in the header's [data_ptr] and never from past [data_len] bytes
    after it; nothing else in RAM or flash changes.  It returns [void]: the
    number of bytes copied is not reported. *)
Theorem read_copies_min (st : state) (o buffer buffer_len : Z) :
  block_ok o ->
  let h := hdr st o in
  valid h <> 0 -> data_len h <> 0 ->
  let k := Z.min buffer_len (data_len h) in
  let r := flash_read_safe st o buffer buffer_len in
  snd r = Ok /\ flash (fst r) = flash st /\ trace (fst r) = trace st /\
  (forall i, 0 <= i < k -> ram (fst r) (buffer + i) = load st (data_ptr h + i)) /\
  (forall i, 0 <= i < k -> i < data_len h) /\
  (forall a, ~ (buffer <= a < buffer + k) -> ram (fst r) a = ram st a).
Proof.
  intros Hb h Hv Hl k r.
  assert (Hr : r = (memcpy st buffer (data_ptr h) k, Ok)).
  { unfold r. rewrite flash_read_safe_accept by exact Hb. fold h.
    rewrite (proj2 (Z.eqb_neq _ _) Hv), (proj2 (Z.eqb_neq _ _) Hl). cbn [orb].
    unfold k. destruct (Z.gtb_spec buffer_len (data_len h)).
    - rewrite Z.min_r by lia. reflexivity.
    - rewrite Z.min_l by lia. reflexivity. }
  rewrite Hr. cbn [fst snd memcpy flash ram trace].
  split; [reflexivity|]. split; [reflexivity|]. split; [reflexivity|].
  split; [|split].
  - intros i Hi. rewrite in_range_true by lia. do 2 f_equal. ring.
  - intros i Hi. unfold k in Hi. lia.
  - intros a Ha. rewrite in_range_false by lia. reflexivity.
Qed.

(** C8 fails as stated: two reads of the same record that copy one and two
    bytes give the same result apart from the buffer contents; no byte
    count is returned. *)
Lemma read_reports_no_count :
  let st := fst (flash_write_safe
                   (mkState fresh_flash
                      (fun a => if in_range 536870912 a 536871012 then 171 else 0) [])
                   4096 536870912 100) in
  let r1 := flash_read_safe st 4096 536875008 1 in
  let r2 := flash_read_safe st 4096 536875008 2 in
  snd r1 = Ok /\ snd r2 = Ok /\
  ram (fst r1) 536875009 = 0 /\ ram (fst r2) 536875009 = 171.
Proof. vm_compute. repeat split. Qed.

Lemma write_struct_trace (st : state) (fo : Z) (nd : flash_data) :
  trace (flash_write_safe_struct st fo nd) =
  trace st ++ [EvDisableInts; EvErase fo FLASH_SECTOR_SIZE;
               EvProgram fo METADATA_SIZE; EvRestoreInts].
Proof.
  unfold flash_write_safe_struct. cbn [trace log flash_range_erase flash_range_program].
  rewrite struct_bytes_length. rewrite <- !app_assoc. reflexivity.
Qed.

(** C9 (interrupt discipline).  [flash_write_safe] and [flash_erase_safe]
    either take a validation exit, with no primitive or interrupt call at
    all, or pass every check and then make exactly the calls
    disable-interrupts, erase the sector, program the 16-byte header,
    restore interrupts, in this order: interrupts are disabled only after
    validation and restored exactly once before returning. *)
Theorem interrupts_bracketed (st : state) (o data n : Z) :
  let fo := flash_offset_of o in
  let crit := [EvDisableInts; EvErase fo FLASH_SECTOR_SIZE;
               EvProgram fo METADATA_SIZE; EvRestoreInts] in
  (let r := flash_write_safe st o data n in
   exists evs, trace (fst r) = trace st ++ evs /\
     ((snd r <> Ok /\ evs = []) \/ (snd r = Ok /\ evs = crit))) /\
  (let r := flash_erase_safe st o in
   exists evs, trace (fst r) = trace st ++ evs /\
     ((snd r <> Ok /\ evs = []) \/ (snd r = Ok /\ evs = crit))).
Proof.
  intros fo crit. split; cbv zeta.
  - destruct (status_eq_dec (snd (flash_write_safe st o data n)) Ok) as [E | E].
    + exists crit. split; [|right; split; [exact E | reflexivity]].
      destruct (flash_write_safe_ok _ _ _ _ E) as (_ & _ & _ & _ & ->).
      apply write_struct_trace.
    + exists []. split; [|left; split; [exact E | reflexivity]].
      rewrite flash_write_safe_reject by exact E. symmetry. apply app_nil_r.
  - destruct (block_ok_decide o) as [Hb | Hb].
    + rewrite flash_erase_safe_accept by exact Hb. exists crit. cbn [fst snd].
      split; [|right; split; reflexivity].
      cbn [trace log flash_range_erase flash_range_program].
      rewrite struct_bytes_length. rewrite <- !app_assoc. reflexivity.
    + destruct (flash_erase_safe_reject st o Hb) as (s & -> & Hs).
      exists []. cbn [fst snd]. split; [symmetry; apply app_nil_r | left; auto].
Qed.

(** C10 (raw sentinel).  On an accepted block whose header bytes are all
    [0xFF] (erased, never programmed), [get_flash_write_count] returns the
    raw sentinel [4294967295], not 0; the mapping of the sentinel to 0 is
    done only inside the write path, where it makes the next count 1. *)
Theorem fresh_count_is_sentinel (st : state) (o : Z) :
  block_ok o ->
  (forall k, 0 <= k < METADATA_SIZE -> flash st (flash_offset_of o + k) = 255) ->
  get_flash_write_count st o = (4294967295, Ok) /\
  next_write_count (fst (get_flash_write_count st o)) = 1.
Proof.
  intros Hb Hf. rewrite get_flash_write_count_ok by exact Hb.
  unfold hdr, flash_header, le32_at. cbn [write_count fst].
  rewrite <- !Z.add_assoc, !Hf by (unfold METADATA_SIZE; lia). split; reflexivity.
Qed.

(** C2 fails on a never-written block: [get_flash_write_count] reads
    4294967295 there (not the documented 0) before the first successful
    write and 1 after it. *)
Lemma fresh_write_count_not_plus_one :
  let st0 := mkState fresh_flash (fun _ => 0) [] in
  let st1 := fst (flash_write_safe st0 4096 536870912 100) in
  snd (flash_write_safe st0 4096 536870912 100) = Ok /\
  fst (get_flash_write_count st0 4096) = 4294967295 /\
  fst (get_flash_write_count st1 4096) = 1 /\
  fst (get_flash_write_count st1 4096) <> fst (get_flash_write_count st0 4096) + 1.
Proof. vm_compute. repeat split. discriminate. Qed.

Lemma block_ok_4096 : block_ok 4096.
Proof. apply block_ok_dec. split; reflexivity. Qed.

Lemma demo_state_wf : flash_wf demo_state.
Proof. intros a. unfold byte_ok, demo_state, fresh_flash. cbn. lia. Qed.

Lemma write_read_roundtrip_witness :
  block_ok 4096 /\ 0 < 100 <= FLASH_SECTOR_SIZE - METADATA_SIZE /\
  0 < 536870912 < 2 ^ 32 /\ 100 <= 150 /\
  (forall i, 0 <= i < 100 ->
     ~ (XIP_BASE + flash_offset_of 4096 <= 536870912 + i
        < XIP_BASE + flash_offset_of 4096 + FLASH_SECTOR_SIZE)) /\
  (let st1 := fst (flash_write_safe demo_state 4096 536870912 100) in
   let r := flash_read_safe st1 4096 536875008 150 in
   snd r = Ok /\ forall i, 0 <= i < 100 ->
     ram (fst r) (536875008 + i) = load demo_state (536870912 + i)).
Proof.
  assert (Hp : forall i, 0 <= i < 100 ->
     ~ (XIP_BASE + flash_offset_of 4096 <= 536870912 + i
        < XIP_BASE + flash_offset_of 4096 + FLASH_SECTOR_SIZE)).
  { intros i Hi. change (flash_offset_of 4096) with 266240.
    unfold XIP_BASE, FLASH_SECTOR_SIZE. lia. }
  assert (Hn : 0 < 100 <= FLASH_SECTOR_SIZE - METADATA_SIZE)
    by (unfold FLASH_SECTOR_SIZE, METADATA_SIZE; lia).
  split; [exact block_ok_4096|]. split; [exact Hn|].
  split; [lia|]. split; [lia|]. split; [exact Hp|].
  refine (write_read_roundtrip demo_state 4096 536870912 100 536875008 150
            block_ok_4096 Hn _ _ Hp); lia.
Defined.

Lemma write_count_step_witness :
  flash_wf demo_state /\ block_ok 4096 /\ op_wt (OpWrite 4096 536870912 100) /\
  (let st := run demo_state [OpErase 4096] in
   let c := fst (get_flash_write_count st 4096) in
   let r := exec st (OpWrite 4096 536870912 100) in
   fst (get_flash_write_count (fst r) 4096) =
   if is_write_to 4096 (OpWrite 4096 536870912 100) && is_ok (snd r)
   then (if c =? WC_SENTINEL then 1 else c + 1) else c).
Proof.
  split; [exact demo_state_wf|]. split; [exact block_ok_4096|].
  split; [cbn; lia|].
  apply (write_count_step demo_state [OpErase 4096] 4096 (OpWrite 4096 536870912 100));
    [exact demo_state_wf | exact block_ok_4096 | cbn; lia].
Defined.

Lemma erase_then_empty_witness :
  flash_wf demo_state /\ block_ok 4096 /\
  writes_to 4096 (fst (flash_erase_safe demo_state 4096))
    [OpWrite 4096 0 100; OpRead 4096 536875008 150] = false /\
  (let st1 := fst (flash_erase_safe demo_state 4096) in
   let st := run st1 [OpWrite 4096 0 100; OpRead 4096 536875008 150] in
   get_flash_data_length st 4096 = (0, Ok) /\
   forall buffer n, flash_read_safe st 4096 buffer n = (st, InvalidOrUninitialized)).
Proof.
  split; [exact demo_state_wf|]. split; [exact block_ok_4096|].
  split; [vm_compute; reflexivity|].
  apply (erase_then_empty demo_state 4096
           [OpWrite 4096 0 100; OpRead 4096 536875008 150]);
    [exact demo_state_wf | exact block_ok_4096 | vm_compute; reflexivity].
Defined.

Lemma misaligned_rejected_witness :
  (FLASH_TARGET_OFFSET + 100) mod FLASH_SECTOR_SIZE <> 0 /\
  (forall data data_len,
     flash_write_safe demo_state 100 data data_len =
     (demo_state, if (data =? NULL) || (data_len =? 0) then NullOrEmptyPayload
                  else MisalignedOffset)) /\
  (forall buffer buffer_len,
     flash_read_safe demo_state 100 buffer buffer_len = (demo_state, MisalignedOffset)) /\
  flash_erase_safe demo_state 100 = (demo_state, MisalignedOffset) /\
  get_flash_write_count demo_state 100 = (0, MisalignedOffset) /\
  get_flash_data_length demo_state 100 = (0, MisalignedOffset).
Proof.
  split; [vm_compute; discriminate|].
  apply (misaligned_rejected demo_state 100). vm_compute. discriminate.
Defined.

Lemma serialize_deserialize_roundtrip_witness :
  let m := fun a => if in_range 100 a 103 then a - 90 else 0 in
  let d := mkFlashData 1 258 3 100 in
  (data_ptr d <> NULL /\ 0 < data_len d < 2 ^ 32 /\
   byte_ok (valid d) /\ 0 <= write_count d < 2 ^ 32 /\
   SERIALIZED_HEADER_SIZE + data_len d <= 12 /\
   (forall k, 0 <= k < data_len d ->
      ~ (200 <= data_ptr d + k < 200 + SERIALIZED_HEADER_SIZE + data_len d))) /\
  (let r := serialize_flash_data m d 200 12 in
   snd r = Ok /\
   length (encode m d) = Z.to_nat (SERIALIZED_HEADER_SIZE + data_len d) /\
   (forall i, 0 <= i < SERIALIZED_HEADER_SIZE + data_len d ->
      fst r (200 + i) = nth (Z.to_nat i) (encode m d) 0) /\
   (forall a, ~ (200 <= a < 200 + SERIALIZED_HEADER_SIZE + data_len d) ->
      fst r a = m a) /\
   deserialize_flash_data (fst r) 200 true =
   mkDecoded (valid d) (write_count d) (data_len d)
             (Some (bytes_at m (data_ptr d) (data_len d)))).
Proof.
  intros m d.
  assert (H1 : data_ptr d <> NULL) by (unfold d, NULL; cbn [data_ptr]; discriminate).
  assert (H2 : 0 < data_len d < 2 ^ 32) by (unfold d; cbn [data_len]; lia).
  assert (H3 : byte_ok (valid d)) by (unfold byte_ok, d; cbn [valid]; lia).
  assert (H4 : 0 <= write_count d < 2 ^ 32) by (unfold d; cbn [write_count]; lia).
  assert (H5 : SERIALIZED_HEADER_SIZE + data_len d <= 12)
    by (unfold d, SERIALIZED_HEADER_SIZE; cbn [data_len]; lia).
  assert (H6 : forall k, 0 <= k < data_len d ->
      ~ (200 <= data_ptr d + k < 200 + SERIALIZED_HEADER_SIZE + data_len d))
    by (unfold d, SERIALIZED_HEADER_SIZE; cbn [data_ptr data_len]; lia).
  split; [tauto|].
  exact (serialize_deserialize_roundtrip m d 200 12 H1 H2 H3 H4 H5 H6).
Defined.

(** A record of [data_len = 3] with payload [7; 8; 9], decoded from two
    memories that agree on its 12 bytes and differ right after them. *)
Lemma deserialize_reads_record_only_witness :
  let m := fun a => if in_range 100 a 112
                    then nth (Z.to_nat (a - 100)) [1; 2; 0; 0; 0; 3; 0; 0; 0; 7; 8; 9] 0
                    else 0 in
  let m' := fun a => if in_range 100 a 112 then m a else 42 in
  le32_at m (100 + 5) = 3 /\ m 112 <> m' 112 /\
  bytes_at m (100 + SERIALIZED_HEADER_SIZE) 3 = [7; 8; 9] /\
  (forall a, 100 <= a < 100 + SERIALIZED_HEADER_SIZE \/
             100 + SERIALIZED_HEADER_SIZE <= a
               < 100 + SERIALIZED_HEADER_SIZE + le32_at m (100 + 5) ->
             m a = m' a) /\
  deserialize_flash_data m 100 true = deserialize_flash_data m' 100 true /\
  d_data_len (deserialize_flash_data m 100 true) = le32_at m (100 + 5) /\
  d_payload (deserialize_flash_data m 100 true) =
  Some (bytes_at m (100 + SERIALIZED_HEADER_SIZE) (le32_at m (100 + 5))).
Proof.
  intros m m'.
  assert (H : forall a, 100 <= a < 100 + SERIALIZED_HEADER_SIZE \/
             100 + SERIALIZED_HEADER_SIZE <= a
               < 100 + SERIALIZED_HEADER_SIZE + le32_at m (100 + 5) ->
             m a = m' a).
  { change (le32_at m (100 + 5)) with 3. unfold SERIALIZED_HEADER_SIZE.
    intros a Ha. unfold m'. rewrite in_range_true by lia. reflexivity. }
  split; [reflexivity|]. split; [vm_compute; discriminate|].
  split; [reflexivity|]. split; [exact H|].
  apply (deserialize_reads_record_only m m' 100 true H).
Defined.

Lemma first_write_count_one_witness :
  block_ok 4096 /\
  (forall k, 0 <= k < FLASH_SECTOR_SIZE ->
     flash demo_state (flash_offset_of 4096 + k) = 255) /\
  0 <= 536870912 < 2 ^ 32 /\ 0 <= 100 < 2 ^ 32 /\
  snd (flash_write_safe demo_state 4096 536870912 100) = Ok /\
  write_count (hdr (fst (flash_write_safe demo_state 4096 536870912 100)) 4096) = 1 /\
  get_flash_write_count (fst (flash_write_safe demo_state 4096 536870912 100)) 4096
  = (1, Ok).
Proof.
  split; [exact block_ok_4096|]. split; [intros; reflexivity|].
  split; [lia|]. split; [lia|]. split; [vm_compute; reflexivity|].
  apply (first_write_count_one demo_state 4096 536870912 100);
    [exact block_ok_4096 | intros; reflexivity | lia | lia | vm_compute; reflexivity].
Defined.

Lemma read_copies_min_witness :
  let st := fst (flash_write_safe demo_state 4096 536870912 100) in
  let h := hdr st 4096 in
  block_ok 4096 /\ valid h <> 0 /\ data_len h <> 0 /\
  (let k := Z.min 150 (data_len h) in
   let r := flash_read_safe st 4096 536875008 150 in
   snd r = Ok /\ flash (fst r) = flash st /\ trace (fst r) = trace st /\
   (forall i, 0 <= i < k -> ram (fst r) (536875008 + i) = load st (data_ptr h + i)) /\
   (forall i, 0 <= i < k -> i < data_len h) /\
   (forall a, ~ (536875008 <= a < 536875008 + k) -> ram (fst r) a = ram st a)).
Proof.
  intros st h.
  split; [exact block_ok_4096|]. split; [vm_compute; discriminate|].
  split; [vm_compute; discriminate|].
  apply (read_copies_min st 4096 536875008 150);
    [exact block_ok_4096 | vm_compute; discriminate | vm_compute; discriminate].
Defined.

Lemma fresh_count_is_sentinel_witness :
  block_ok 4096 /\
  (forall k, 0 <= k < METADATA_SIZE -> flash demo_state (flash_offset_of 4096 + k) = 255) /\
  get_flash_write_count demo_state 4096 = (4294967295, Ok) /\
  next_write_count (fst (get_flash_write_count demo_state 4096)) = 1.
Proof.
  split; [exact block_ok_4096|]. split; [intros; reflexivity|].
  apply (fresh_count_is_sentinel demo_state 4096);
    [exact block_ok_4096 | intros; reflexivity].
Defined.

(** ** Further properties of the operations, the codecs and the command
    line *)

(** X1 (flash_write_safe, first check).  A write with a NULL payload or a
    zero length returns at once with the null-or-empty error and changes
    nothing, whatever the offset: the check comes before the alignment and
    bounds checks. *)
Theorem write_null_or_empty_rejected (st : state) (o data n : Z) :
  data = NULL \/ n = 0 ->
  flash_write_safe st o data n = (st, NullOrEmptyPayload).
Proof.
  intros H. unfold flash_write_safe.
  replace ((data =? NULL) || (n =? 0)) with true
    by (destruct H as [-> | ->]; rewrite ?Z.eqb_refl, ?orb_true_r; reflexivity).
  reflexivity.
Qed.

(** X2 (flash_write_safe, size check).  A non-null write of more than
    [FLASH_SECTOR_SIZE - METADATA_SIZE = 4080] bytes changes nothing; it
    reports a misaligned offset if the offset is misaligned, and otherwise
    reports a payload that is too large, even for an out-of-range offset. *)
Theorem write_too_large_rejected (st : state) (o data n : Z) :
  data <> NULL -> n <> 0 -> FLASH_SECTOR_SIZE - METADATA_SIZE < n ->
  flash_write_safe st o data n =
  (st, if flash_offset_of o mod FLASH_SECTOR_SIZE =? 0 then PayloadTooLarge
       else MisalignedOffset).
Proof.
  intros Hd Hn Hl. unfold flash_write_safe.
  rewrite (proj2 (Z.eqb_neq _ _) Hd), (proj2 (Z.eqb_neq _ _) Hn). cbn [orb].
  destruct (flash_offset_of o mod FLASH_SECTOR_SIZE =? 0); cbn [negb]; [|reflexivity].
  replace (n >? FLASH_SECTOR_SIZE - METADATA_SIZE) with true
    by (symmetry; rewrite Z.gtb_ltb; apply Z.ltb_lt; lia).
  reflexivity.
Qed.

(** X3 (bounds check).  For an aligned offset whose header would end past
    [FLASH_TARGET_OFFSET + FLASH_SIZE], each of the five public operations
    takes its out-of-range exit without changing the state (a write with a
    valid payload included), and both queries return 0. *)
Theorem out_of_range_rejected (st : state) (o data n buffer buffer_len : Z) :
  flash_offset_of o mod FLASH_SECTOR_SIZE = 0 ->
  flash_bound < flash_offset_of o + METADATA_SIZE ->
  data <> NULL -> 0 < n <= FLASH_SECTOR_SIZE - METADATA_SIZE ->
  flash_write_safe st o data n = (st, OutOfRange) /\
  flash_read_safe st o buffer buffer_len = (st, OutOfRange) /\
  flash_erase_safe st o = (st, OutOfRange) /\
  get_flash_write_count st o = (0, OutOfRange) /\
  get_flash_data_length st o = (0, OutOfRange).
Proof.
  intros Ha Hb Hd Hn.
  assert (E1 : negb (flash_offset_of o mod FLASH_SECTOR_SIZE =? 0) = false)
    by (rewrite Ha; reflexivity).
  assert (E2 : (flash_offset_of o + METADATA_SIZE >? flash_bound) = true)
    by (rewrite Z.gtb_ltb; apply Z.ltb_lt; exact Hb).
  assert (E3 : (n >? FLASH_SECTOR_SIZE - METADATA_SIZE) = false)
    by (rewrite Z.gtb_ltb; apply Z.ltb_ge; lia).
  unfold flash_write_safe, flash_read_safe, flash_erase_safe,
    get_flash_write_count, get_flash_data_length.
  rewrite E1, E2, E3, (proj2 (Z.eqb_neq _ _) Hd).
  replace (n =? 0) with false by (symmetry; apply Z.eqb_neq; lia).
  repeat split.
Qed.

(** The offsets that wrap around. *)
Lemma wrapped_offset (k : Z) : 0 <= k < 64 ->
  flash_offset_of (2 ^ 32 - FLASH_TARGET_OFFSET + FLASH_SECTOR_SIZE * k) =
  FLASH_SECTOR_SIZE * k /\
  block_ok (2 ^ 32 - FLASH_TARGET_OFFSET + FLASH_SECTOR_SIZE * k).
Proof.
  intros Hk.
  assert (E : flash_offset_of (2 ^ 32 - FLASH_TARGET_OFFSET + FLASH_SECTOR_SIZE * k) =
              FLASH_SECTOR_SIZE * k).
  { unfold flash_offset_of, u32, FLASH_TARGET_OFFSET, FLASH_SECTOR_SIZE.
    replace (256 * 1024 + (2 ^ 32 - 256 * 1024 + 4096 * k)) with (4096 * k + 1 * 2 ^ 32)
      by ring.
    rewrite Z.mod_add by lia. apply Z.mod_small. lia. }
  split; [exact E|]. unfold block_ok. rewrite E.
  unfold FLASH_SECTOR_SIZE, METADATA_SIZE, flash_bound, FLASH_TARGET_OFFSET, FLASH_SIZE.
  split; [rewrite Z.mul_comm; apply Z.mod_mul; lia | lia].
Qed.

(** X4 (32-bit wrap-around of [FLASH_TARGET_OFFSET + offset]).  The 64
    offsets [2^32 - FLASH_TARGET_OFFSET + 4096 k] pass every check: a write
    or erase there succeeds and erases and programs the sector at flash
    offset [4096 k], below [FLASH_TARGET_OFFSET], in the area the user
    data region is meant to leave alone. *)
Theorem wrapped_offset_reaches_low_flash (st : state) (k data n : Z) :
  0 <= k < 64 -> data <> NULL -> 0 < n <= FLASH_SECTOR_SIZE - METADATA_SIZE ->
  let o := 2 ^ 32 - FLASH_TARGET_OFFSET + FLASH_SECTOR_SIZE * k in
  let fo := FLASH_SECTOR_SIZE * k in
  fo + FLASH_SECTOR_SIZE <= FLASH_TARGET_OFFSET /\
  snd (flash_write_safe st o data n) = Ok /\
  trace (fst (flash_write_safe st o data n)) =
    trace st ++ [EvDisableInts; EvErase fo FLASH_SECTOR_SIZE;
                 EvProgram fo METADATA_SIZE; EvRestoreInts] /\
  snd (flash_erase_safe st o) = Ok /\
  trace (fst (flash_erase_safe st o)) =
    trace st ++ [EvDisableInts; EvErase fo FLASH_SECTOR_SIZE;
                 EvProgram fo METADATA_SIZE; EvRestoreInts].
Proof.
  intros Hk Hd Hn o fo. destruct (wrapped_offset k Hk) as [E Hb]. fold o in E, Hb.
  split; [unfold fo, FLASH_SECTOR_SIZE, FLASH_TARGET_OFFSET; lia|].
  rewrite flash_write_safe_accept by (auto; lia). cbn [fst snd].
  rewrite write_struct_trace, E.
  rewrite flash_erase_safe_accept by exact Hb. cbn [fst snd].
  cbn [trace log flash_range_erase flash_range_program].
  rewrite struct_bytes_length, <- !app_assoc, E. repeat split.
Qed.

(** X5 (flash image after a write).  A successful write leaves, in the
    sector of the block, the 16 bytes of the new header followed by erased
    [0xFF] bytes, and every other flash byte unchanged: the payload itself
    is never written to flash.  The three padding bytes of the header are
    left out: C writes them from indeterminate stack bytes. *)
Theorem write_flash_image (st : state) (o data n a : Z) :
  block_ok o -> data <> NULL -> 0 < n <= FLASH_SECTOR_SIZE - METADATA_SIZE ->
  padding_byte (flash_offset_of o) a = false ->
  let fo := flash_offset_of o in
  flash (fst (flash_write_safe st o data n)) a =
  if in_range fo a (fo + METADATA_SIZE) then
    nth (Z.to_nat (a - fo))
        (struct_bytes (mkFlashData 1 (next_write_count (write_count (hdr st o))) n data)) 0
  else if in_range fo a (fo + FLASH_SECTOR_SIZE) then 255
  else flash st a.
Proof.
  intros Hb Hd Hn _ fo. pose proof (block_ok_range _ Hb) as (R1 & R2 & R3).
  rewrite flash_write_safe_accept by (auto; lia). cbn [fst].
  rewrite write_struct_flash, read_struct_xip by lia. fold (hdr st o).
  rewrite erase_program_flash.
  - rewrite struct_bytes_length. reflexivity.
  - rewrite struct_bytes_length. lia.
  - apply struct_bytes_ok. cbn. unfold byte_ok; lia.
Qed.

(** X6 (flash image after an erase).  Erasing an accepted block leaves,
    in its sector, the 16 bytes of [{0, write_count, 0, NULL}] (the stored
    write count carried over) followed by [0xFF] bytes, every other flash
    byte unchanged, and RAM unchanged.  The three padding bytes of the
    header are left out: C writes them from indeterminate stack bytes. *)
Theorem erase_flash_image (st : state) (o : Z) :
  block_ok o ->
  let fo := flash_offset_of o in
  (forall a, padding_byte fo a = false ->
   flash (fst (flash_erase_safe st o)) a =
   if in_range fo a (fo + METADATA_SIZE) then
     nth (Z.to_nat (a - fo)) (struct_bytes (restored_metadata st o)) 0
   else if in_range fo a (fo + FLASH_SECTOR_SIZE) then 255
   else flash st a) /\
  ram (fst (flash_erase_safe st o)) = ram st.
Proof.
  intros Hb fo. split; [|apply erase_ram]. intros a _.
  rewrite erase_flash by exact Hb. rewrite erase_program_flash.
  - rewrite struct_bytes_length. reflexivity.
  - rewrite struct_bytes_length. lia.
  - apply struct_bytes_ok. cbn. unfold byte_ok; lia.
Qed.

Lemma restored_metadata_erase (st : state) (o : Z) : block_ok o -> flash_wf st ->
  restored_metadata (fst (flash_erase_safe st o)) o = restored_metadata st o.
Proof.
  intros Hb Hw. unfold restored_metadata at 1.
  rewrite erase_header by assumption. reflexivity.
Qed.

(** X7 (erase is idempotent).  From a state whose flash holds bytes,
    erasing the same offset twice gives the same flash contents as erasing
    it once, the three padding bytes of the header apart (C writes them
    from indeterminate stack bytes). *)
Theorem erase_idempotent (st : state) (o : Z) : flash_wf st ->
  forall a, padding_byte (flash_offset_of o) a = false ->
  flash (fst (flash_erase_safe (fst (flash_erase_safe st o)) o)) a =
  flash (fst (flash_erase_safe st o)) a.
Proof.
  intros Hw a _. destruct (block_ok_decide o) as [Hb | Hb].
  - rewrite (erase_flash (fst (flash_erase_safe st o))) by exact Hb.
    rewrite restored_metadata_erase by assumption.
    rewrite (erase_flash st) by exact Hb.
    rewrite !erase_program_flash
      by (try (rewrite struct_bytes_length; lia);
          apply struct_bytes_ok; cbn; unfold byte_ok; lia).
    rewrite struct_bytes_length.
    destruct (in_range (flash_offset_of o) a (flash_offset_of o + Z.of_nat 16));
      [reflexivity|].
    destruct (in_range (flash_offset_of o) a (flash_offset_of o + FLASH_SECTOR_SIZE))
      eqn:E2; [reflexivity|].
    apply erase_frame; [exact Hb|]. intro H. apply in_range_spec in H. congruence.
  - destruct (flash_erase_safe_reject st o Hb) as (s & E & _). rewrite E. cbn [fst].
    rewrite E. reflexivity.
Qed.

(** X8 (erase before write).  When a write succeeds, erasing the block
    first makes no difference: the write still succeeds and the flash
    contents afterwards are the same, the three padding bytes of the
    header apart (C writes them from indeterminate stack bytes). *)
Theorem erase_before_write_redundant (st : state) (o data n : Z) :
  flash_wf st -> snd (flash_write_safe st o data n) = Ok ->
  snd (flash_write_safe (fst (flash_erase_safe st o)) o data n) = Ok /\
  forall a, padding_byte (flash_offset_of o) a = false ->
  flash (fst (flash_write_safe (fst (flash_erase_safe st o)) o data n)) a =
  flash (fst (flash_write_safe st o data n)) a.
Proof.
  intros Hw E.
  destruct (flash_write_safe_ok _ _ _ _ E) as (Hd & Hn & Hb & Hl & _).
  pose proof (block_ok_range _ Hb) as (R1 & R2 & R3).
  rewrite !flash_write_safe_accept by auto. cbn [fst snd]. split; [reflexivity|].
  intros a _. rewrite !write_struct_flash, !read_struct_xip by lia.
  fold (hdr (fst (flash_erase_safe st o)) o). fold (hdr st o).
  rewrite erase_header by assumption. unfold restored_metadata. cbn [write_count].
  rewrite !erase_program_flash
    by (try (rewrite struct_bytes_length; lia);
        apply struct_bytes_ok; cbn; unfold byte_ok; lia).
  rewrite !struct_bytes_length.
  destruct (in_range (flash_offset_of o) a (flash_offset_of o + Z.of_nat 16));
    [reflexivity|].
  destruct (in_range (flash_offset_of o) a (flash_offset_of o + FLASH_SECTOR_SIZE))
    eqn:E2; [reflexivity|].
  apply erase_frame; [exact Hb|]. intro H. apply in_range_spec in H. congruence.
Qed.

(** X9 (flash_read_safe writes only the caller's buffer).  On every path,
    flash_read_safe leaves flash and the trace unchanged; a failing read
    leaves the whole state unchanged; RAM changes only inside
    [buffer, buffer + buffer_len). *)
Theorem read_frame (st : state) (o buffer buffer_len : Z) :
  let r := flash_read_safe st o buffer buffer_len in
  flash (fst r) = flash st /\ trace (fst r) = trace st /\
  (snd r <> Ok -> fst r = st) /\
  forall a, ~ (buffer <= a < buffer + buffer_len) -> ram (fst r) a = ram st a.
Proof.
  intros r. unfold r, flash_read_safe.
  destruct (negb _); [repeat split; auto|].
  destruct (_ >? _); [repeat split; auto|].
  destruct (_ || _); [repeat split; auto|].
  cbn [fst snd memcpy flash ram trace]. repeat split; [congruence|].
  intros a Ha. rewrite in_range_false; [reflexivity|].
  destruct (buffer_len >? _) eqn:E; [rewrite Z.gtb_ltb, Z.ltb_lt in E|]; lia.
Qed.

Lemma write_accept_hdr (st : state) (o data n : Z) :
  block_ok o -> 0 < data < 2 ^ 32 -> 0 < n <= FLASH_SECTOR_SIZE - METADATA_SIZE ->
  hdr (fst (flash_write_safe st o data n)) o =
  mkFlashData 1 (next_write_count (write_count (hdr st o))) n data.
Proof.
  intros Hb Hd Hn.
  rewrite flash_write_safe_accept by (first [exact Hb | unfold NULL; lia]).
  apply write_struct_header; [exact Hb | ..];
    cbn; unfold FLASH_SECTOR_SIZE, METADATA_SIZE in *; lia.
Qed.

(** X10 (queries after a write).  After a successful write of [n] bytes
    from a 32-bit payload address, [get_flash_data_length] returns [n] and
    [get_flash_write_count] the next write count, the header is marked
    valid and holds the payload address. *)
Theorem write_then_query (st : state) (o data n : Z) :
  block_ok o -> 0 < data < 2 ^ 32 -> 0 < n <= FLASH_SECTOR_SIZE - METADATA_SIZE ->
  let st' := fst (flash_write_safe st o data n) in
  get_flash_data_length st' o = (n, Ok) /\
  get_flash_write_count st' o = (next_write_count (write_count (hdr st o)), Ok) /\
  valid (hdr st' o) = 1 /\ data_ptr (hdr st' o) = data.
Proof.
  intros Hb Hd Hn st'.
  assert (H : hdr st' o = mkFlashData 1 (next_write_count (write_count (hdr st o))) n data)
    by (apply write_accept_hdr; assumption).
  rewrite get_flash_data_length_ok, get_flash_write_count_ok, H by exact Hb.
  repeat split.
Qed.

Lemma store_bytes_spec (m : Z -> Z) (p : Z) (bytes : list Z) (a : Z) :
  store_bytes m p bytes a =
  if in_range p a (p + Z.of_nat (length bytes)) then nth (Z.to_nat (a - p)) bytes 0
  else m a.
Proof. reflexivity. Qed.

Lemma nth_app_shift (l1 l2 : list Z) (i : Z) :
  Z.of_nat (length l1) <= i ->
  nth (Z.to_nat i) (l1 ++ l2) 0 = nth (Z.to_nat (i - Z.of_nat (length l1))) l2 0.
Proof.
  intros Hi. rewrite app_nth2 by lia. f_equal. lia.
Qed.

Lemma nth_app_first (l1 l2 : list Z) (i : Z) :
  0 <= i < Z.of_nat (length l1) ->
  nth (Z.to_nat i) (l1 ++ l2) 0 = nth (Z.to_nat i) l1 0.
Proof. intros Hi. apply app_nth1. lia. Qed.


(** X11 (serialize_flash_data without a payload).  With a NULL payload
    pointer or a zero length, and a large enough buffer, the codec still
    succeeds, but it writes only the 9 header bytes; the [data_len] bytes
    after them are left as they were. *)
Theorem serialize_without_payload (m : Z -> Z) (d : flash_data) (b size : Z) :
  data_ptr d = NULL \/ data_len d = 0 ->
  SERIALIZED_HEADER_SIZE + data_len d <= size ->
  snd (serialize_flash_data m d b size) = Ok /\
  forall a, fst (serialize_flash_data m d b size) a =
            if in_range b a (b + SERIALIZED_HEADER_SIZE)
            then nth (Z.to_nat (a - b)) (serialized_header d) 0 else m a.
Proof.
  intros Hp Hs. unfold serialize_flash_data, SERIALIZED_HEADER_SIZE in *.
  replace (size <? 1 + 4 + 4 + data_len d) with false by (symmetry; apply Z.ltb_ge; lia).
  replace (negb (data_ptr d =? NULL) && (data_len d >? 0)) with false
    by (symmetry; destruct Hp as [-> | ->]; [reflexivity | apply andb_false_r]).
  split; [reflexivity|]. intros a. cbn [fst].
  rewrite !store_bytes_spec.
  change (Z.of_nat (length (le32_bytes ?x))) with 4.
  change (Z.of_nat (length [?x])) with 1.
  unfold serialized_header.
  destruct (in_range b a (b + (1 + 4 + 4))) eqn:E.
  - apply in_range_spec in E.
    destruct (Z.lt_ge_cases a (b + 1)).
    + rewrite (in_range_false (b + 5)), (in_range_false (b + 1)), in_range_true by lia.
      rewrite nth_app_first by (cbn; lia). reflexivity.
    + rewrite nth_app_shift by (cbn; lia). cbn [length Z.of_nat Pos.of_succ_nat].
      destruct (Z.lt_ge_cases a (b + 5)).
      * rewrite (in_range_false (b + 5)), in_range_true by lia.
        rewrite nth_app_first by (cbn; lia). f_equal. lia.
      * rewrite in_range_true by lia.
        rewrite nth_app_shift; change (Z.of_nat (length (le32_bytes (write_count d)))) with 4; [f_equal; lia | lia].
  - assert (Ha : ~ (b <= a < b + (1 + 4 + 4)))
      by (intro H; rewrite in_range_true in E by exact H; discriminate).
    rewrite !in_range_false by lia. reflexivity.
Qed.


Lemma name_bytes_length (c : DeviceConfig) : length (name_bytes c) = 10%nat.
Proof. reflexivity. Qed.

Lemma serialize_device_config_spec (m : Z -> Z) (c : DeviceConfig) (b a : Z) :
  serialize_device_config m c b a =
  if in_range b a (b + 18) then nth (Z.to_nat (a - b)) (device_config_bytes c) 0
  else m a.
Proof.
  unfold serialize_device_config. rewrite !store_bytes_spec.
  rewrite name_bytes_length.
  change (Z.of_nat (length (le32_bytes ?x))) with 4.
  unfold device_config_bytes.
  destruct (Z.lt_ge_cases a b) as [H0 | H0].
  { rewrite !in_range_false by lia. reflexivity. }
  destruct (Z.lt_ge_cases a (b + 4)) as [H1 | H1].
  { rewrite (in_range_false (b + 4 + 4)), (in_range_false (b + 4)), !in_range_true
      by lia.
    rewrite nth_app_first; [reflexivity|]. change (Z.of_nat (length (le32_bytes (id c)))) with 4. lia. }
  destruct (Z.lt_ge_cases a (b + 8)) as [H2 | H2].
  { rewrite (in_range_false (b + 4 + 4)), !in_range_true by lia.
    rewrite nth_app_shift; change (Z.of_nat (length (le32_bytes (id c)))) with 4; [|lia].
    rewrite nth_app_first; change (Z.of_nat (length (le32_bytes (sensor_value c)))) with 4;
      [f_equal; lia | lia]. }
  destruct (Z.lt_ge_cases a (b + 18)) as [H3 | H3].
  { rewrite !in_range_true by lia.
    rewrite nth_app_shift; change (Z.of_nat (length (le32_bytes (id c)))) with 4; [|lia].
    rewrite nth_app_shift; change (Z.of_nat (length (le32_bytes (sensor_value c)))) with 4;
      [f_equal; lia | lia]. }
  rewrite !in_range_false by lia. reflexivity.
Qed.

Lemma name_bytes_id (c : DeviceConfig) : length (name c) = 10%nat ->
  name_bytes c = name c.
Proof.
  intros Hl. apply nth_ext with (d := 0) (d' := 0).
  - rewrite name_bytes_length. lia.
  - intros i Hi. rewrite name_bytes_length in Hi. unfold name_bytes.
    set (f := fun k : nat => nth k (name c) 0).
    rewrite (nth_indep _ 0 (f 0%nat)) by (rewrite length_map, length_seq; lia).
    rewrite map_nth, seq_nth by lia. reflexivity.
Qed.

Lemma device_config_roundtrip (m : Z -> Z) (c : DeviceConfig) (b : Z) :
  0 <= id c < 2 ^ 32 -> 0 <= sensor_value c < 2 ^ 32 -> length (name c) = 10%nat ->
  deserialize_device_config (serialize_device_config m c b) b = c.
Proof.
  intros Hi Hs Hn. destruct c as [i s nm]. cbn [id sensor_value name] in *.
  unfold deserialize_device_config. f_equal.
  - rewrite (le32_at_ext _ (fun k => nth (Z.to_nat k) (le32_bytes i) 0) b 0).
    + apply le32_bytes_decode, Hi.
    + intros k Hk. rewrite serialize_device_config_spec, in_range_true by lia.
      unfold device_config_bytes. rewrite nth_app_first.
      * cbn [id]. f_equal. lia.
      * change (Z.of_nat (length (le32_bytes (id (mkDeviceConfig i s nm))))) with 4. lia.
  - rewrite (le32_at_ext _ (fun k => nth (Z.to_nat k) (le32_bytes s) 0) (b + 4) 0).
    + apply le32_bytes_decode, Hs.
    + intros k Hk. rewrite serialize_device_config_spec, in_range_true by lia.
      unfold device_config_bytes.
      rewrite nth_app_shift;
        change (Z.of_nat (length (le32_bytes (id (mkDeviceConfig i s nm))))) with 4; [|lia].
      rewrite nth_app_first;
        change (Z.of_nat (length (le32_bytes (sensor_value (mkDeviceConfig i s nm)))))
          with 4; [cbn [sensor_value]; f_equal; lia | lia].
  - transitivity (name_bytes (mkDeviceConfig i s nm)); [|apply name_bytes_id; exact Hn].
    apply nth_ext with (d := 0) (d' := 0).
    + rewrite bytes_at_length, name_bytes_length. reflexivity.
    + intros k Hk. rewrite bytes_at_length in Hk.
      rewrite bytes_at_nth by exact Hk.
      rewrite serialize_device_config_spec, in_range_true by lia.
      unfold device_config_bytes.
      rewrite nth_app_shift;
        change (Z.of_nat (length (le32_bytes (id (mkDeviceConfig i s nm))))) with 4; [|lia].
      rewrite nth_app_shift;
        change (Z.of_nat (length (le32_bytes (sensor_value (mkDeviceConfig i s nm)))))
          with 4; [f_equal; lia | lia].
Qed.

(** X12 (DeviceConfig codec).  [serialize_device_config] writes only the
    18 bytes [id, sensor_value, name] at the buffer (not the 2 padding bytes of
    [sizeof(DeviceConfig)]), and [deserialize_device_config] of that buffer
    gives the configuration back. *)
Theorem device_config_codec (m : Z -> Z) (c : DeviceConfig) (b : Z) :
  0 <= id c < 2 ^ 32 -> 0 <= sensor_value c < 2 ^ 32 -> length (name c) = 10%nat ->
  deserialize_device_config (serialize_device_config m c b) b = c /\
  forall a, ~ (b <= a < b + 18) -> serialize_device_config m c b a = m a.
Proof.
  intros Hi Hs Hn. split; [apply device_config_roundtrip; assumption|].
  intros a Ha. rewrite serialize_device_config_spec, in_range_false by exact Ha.
  reflexivity.
Qed.

Lemma strlen_nonneg (l : list Z) : 0 <= strlen l.
Proof. induction l as [|c l IH]; cbn [strlen]; [lia|]. destruct (c =? 0); lia. Qed.

Lemma strlen_at (l : list Z) (k : nat) :
  (forall i, (i < k)%nat -> nth i l 0 <> 0) -> nth k l 0 = 0 -> strlen l = Z.of_nat k.
Proof.
  revert k. induction l as [|c l IH]; intros k Hn Hk.
  - destruct k as [|k]; [reflexivity|]. exfalso. apply (Hn O); [lia | reflexivity].
  - cbn [strlen]. destruct k as [|k].
    + cbn in Hk. rewrite Hk. reflexivity.
    + assert (Hc : c <> 0) by (apply (Hn O); lia).
      rewrite (proj2 (Z.eqb_neq _ _) Hc).
      rewrite (IH k); [lia| |exact Hk].
      intros i Hi. apply (Hn (S i)). lia.
Qed.

Lemma strlen_props (l : list Z) :
  (forall i, (i < Z.to_nat (strlen l))%nat -> nth i l 0 <> 0) /\
  nth (Z.to_nat (strlen l)) l 0 = 0.
Proof.
  induction l as [|c l [IH1 IH2]]; cbn [strlen].
  - split; [intros; lia | destruct (Z.to_nat 0); reflexivity].
  - destruct (c =? 0) eqn:E.
    + apply Z.eqb_eq in E. split; [intros; lia | exact E].
    + apply Z.eqb_neq in E. pose proof (strlen_nonneg l).
      replace (Z.to_nat (1 + strlen l)) with (S (Z.to_nat (strlen l))) by lia.
      split; [|exact IH2].
      intros [|i] Hi; [exact E|]. apply IH1. lia.
Qed.

Lemma strlen_lt_length (l : list Z) : In 0 l -> (Z.to_nat (strlen l) < length l)%nat.
Proof.
  intros Hin. destruct (strlen_props l) as [H1 H2].
  destruct (Nat.lt_ge_cases (Z.to_nat (strlen l)) (length l)) as [H | H]; [exact H|].
  exfalso. apply In_nth with (d := 0) in Hin. destruct Hin as (k & Hk & Ek).
  apply (H1 k); [lia | exact Ek].
Qed.

(** X13 (prepare_buffer).  For a NUL-terminated text, the reported buffer
    size is the least multiple of 256 that holds the text and its NUL; the
    buffer holds the text through its NUL followed by zeros, so it has the
    same [strlen]; when [calloc] fails the size is still reported. *)
Theorem prepare_buffer_layout (text : list Z) :
  In 0 text -> Z.of_nat (length text) <= 2 ^ 32 - 256 ->
  let text_len := strlen text + 1 in
  let buffer_size := fst (prepare_buffer text true) in
  buffer_size mod 256 = 0 /\ text_len <= buffer_size < text_len + 256 /\
  snd (prepare_buffer text true) =
    Some (firstn (Z.to_nat text_len) text
          ++ repeat 0 (Z.to_nat (buffer_size - text_len))) /\
  (forall contents, snd (prepare_buffer text true) = Some contents ->
     strlen contents = strlen text) /\
  prepare_buffer text false = (buffer_size, None).
Proof.
  intros Hin Hlen text_len buffer_size.
  pose proof (strlen_lt_length text Hin) as Hlt. pose proof (strlen_nonneg text) as Hnn.
  assert (Et : u32 (strlen text + 1) = text_len)
    by (unfold u32; apply Z.mod_small; unfold text_len; lia).
  pose proof (Z.div_mod (text_len + 255) 256 ltac:(lia)) as Dm.
  pose proof (Z.mod_pos_bound (text_len + 255) 256 ltac:(lia)) as Mb.
  assert (Es : buffer_size = (text_len + 255) / 256 * 256).
  { unfold buffer_size, prepare_buffer. cbn [fst]. rewrite Et.
    unfold u32. rewrite (Z.mod_small (text_len + 255)) by (unfold text_len; lia).
    apply Z.mod_small. unfold text_len in *. lia. }
  assert (Hs : text_len <= buffer_size < text_len + 256) by lia.
  split; [rewrite Es; apply Z.mod_mul; lia|]. split; [exact Hs|].
  assert (Ec : snd (prepare_buffer text true) =
    Some (firstn (Z.to_nat text_len) text
          ++ repeat 0 (Z.to_nat (buffer_size - text_len)))).
  { assert (Eb : u32 (u32 (text_len + 255) / 256 * 256) = buffer_size)
      by (unfold buffer_size, prepare_buffer; cbn [fst]; rewrite Et; reflexivity).
    unfold prepare_buffer. cbn [snd]. rewrite Et, Eb.
    f_equal. apply nth_ext with (d := 0) (d' := 0).
    - rewrite length_map, length_seq, length_app, firstn_length_le, repeat_length
        by (unfold text_len; lia).
      lia.
    - intros i Hi. rewrite length_map, length_seq in Hi.
      set (f := fun i : nat => if Z.of_nat i <? text_len then nth i text 0 else 0).
      rewrite (nth_indep _ 0 (f 0%nat)) by (rewrite length_map, length_seq; lia).
      rewrite map_nth, seq_nth by lia. unfold f. cbn [Nat.add].
      destruct (Z.of_nat i <? text_len) eqn:E.
      + apply Z.ltb_lt in E.
        rewrite app_nth1 by (rewrite firstn_length_le by (unfold text_len; lia); lia).
        rewrite nth_firstn. replace (i <? Z.to_nat text_len)%nat with true
          by (symmetry; apply Nat.ltb_lt; lia). reflexivity.
      + apply Z.ltb_ge in E.
        rewrite app_nth2 by (rewrite firstn_length_le by (unfold text_len; lia); lia).
        rewrite nth_repeat. reflexivity. }
  split; [exact Ec|]. split.
  - intros contents Hc. rewrite Ec in Hc. injection Hc as <-.
    destruct (strlen_props text) as [P1 P2].
    rewrite <- (Z2Nat.id (strlen text)) by exact Hnn.
    apply strlen_at.
    + intros i Hi. rewrite app_nth1 by (rewrite firstn_length_le by (unfold text_len; lia); lia).
      rewrite nth_firstn. replace (i <? Z.to_nat text_len)%nat with true
        by (symmetry; apply Nat.ltb_lt; unfold text_len; lia).
      apply P1. exact Hi.
    + rewrite app_nth1 by (rewrite firstn_length_le by (unfold text_len; lia); unfold text_len; lia).
      rewrite nth_firstn. replace (Z.to_nat (strlen text) <? Z.to_nat text_len)%nat with true
        by (symmetry; apply Nat.ltb_lt; unfold text_len; lia).
      exact P2.
  - unfold prepare_buffer. cbn [fst]. reflexivity.
Qed.

Lemma memcmp_n_zero (m : Z -> Z) (s1 s2 : Z) (n : nat) :
  memcmp_n m s1 s2 n = 0 <->
  forall i, 0 <= i < Z.of_nat n -> m (s1 + i) = m (s2 + i).
Proof.
  revert s1 s2. induction n as [|n IH]; intros s1 s2; cbn [memcmp_n].
  - split; [intros _ i Hi; lia | reflexivity].
  - destruct (m s1 =? m s2) eqn:E.
    + apply Z.eqb_eq in E. rewrite IH. split.
      * intros H i Hi. destruct (Z.eq_dec i 0) as [-> | Hne].
        -- rewrite !Z.add_0_r. exact E.
        -- replace (s1 + i) with (s1 + 1 + (i - 1)) by ring.
           replace (s2 + i) with (s2 + 1 + (i - 1)) by ring. apply H. lia.
      * intros H i Hi. rewrite <- !Z.add_assoc. apply H. lia.
    + apply Z.eqb_neq in E. split; [lia|].
      intros H. exfalso. apply E. rewrite <- (Z.add_0_r s1), <- (Z.add_0_r s2).
      apply H. lia.
Qed.

(** X14 (verify_data).  [verify_data] reports success exactly when the
    two buffers agree on their first [size] bytes. *)
Theorem verify_data_spec (m : Z -> Z) (original read_back size : Z) :
  verify_data m original read_back size = true <->
  forall i, 0 <= i < size -> m (original + i) = m (read_back + i).
Proof.
  unfold verify_data, memcmp. rewrite Z.eqb_eq, memcmp_n_zero.
  split; intros H i Hi; apply H; lia.
Qed.


(** X15 (execute_command).  A command changes the state only when it is a
    [FLASH_ERASE] with an address, and then exactly as [flash_erase_safe]
    of that address; [FLASH_WRITE] and [FLASH_READ] touch no flash (their
    calls are commented out), and [FLASH_READ] always shows write count 0. *)
Theorem execute_command_effects (st : state) (command : string) :
  fst (execute_command st command) =
    match snd (execute_command st command) with
    | CliErased address => fst (flash_erase_safe st address)
    | _ => st
    end /\
  (forall address wc, snd (execute_command st command) = CliReadShown address wc -> wc = 0).
Proof.
  unfold execute_command.
  destruct (strtok command " ") as [[token rest]|]; [|split; [reflexivity | discriminate]].
  destruct (String.eqb token "FLASH_WRITE").
  { destruct (strtok rest " ") as [[t r]|]; [|split; [reflexivity | discriminate]].
    destruct (strtok r QUOTE) as [[t' r']|]; split; first [reflexivity | discriminate]. }
  destruct (String.eqb token "FLASH_READ").
  { destruct (strtok rest " ") as [[t r]|]; split;
      first [reflexivity | discriminate | intros ? ? H; injection H; auto]. }
  destruct (String.eqb token "FLASH_ERASE").
  { destruct (strtok rest " ") as [[t r]|]; split; first [reflexivity | discriminate]. }
  split; [reflexivity | discriminate].
Qed.

Lemma token_span_whole (s : string) :
  (forall c, In c (list_ascii_of_string s) -> c <> " "%char) ->
  token_span " " s = (s, EmptyString).
Proof.
  induction s as [|c s IH]; intros H; [reflexivity|].
  cbn [token_span is_delim]. rewrite orb_false_r.
  replace (Ascii.eqb c " ") with false
    by (symmetry; apply Ascii.eqb_neq; apply H; left; reflexivity).
  rewrite IH by (intros c' Hc'; apply H; right; exact Hc'). reflexivity.
Qed.

(** X16 (FLASH_ERASE parsing).  [FLASH_ERASE s], for a non-empty token [s]
    without spaces, erases at [(uint32_t) atoi(s)]; so a negative address
    wraps around to a large offset. *)
Theorem execute_erase_command (st : state) (s : string) :
  s <> EmptyString ->
  (forall c, In c (list_ascii_of_string s) -> c <> " "%char) ->
  execute_command st ("FLASH_ERASE " ++ s) =
  (fst (flash_erase_safe st (u32 (atoi s))), CliErased (u32 (atoi s))).
Proof.
  intros Hne Hs. unfold execute_command.
  assert (E1 : strtok ("FLASH_ERASE " ++ s) " " = Some ("FLASH_ERASE"%string, s))
    by reflexivity.
  rewrite E1. cbn [String.eqb Ascii.eqb Bool.eqb andb].
  destruct s as [|c s']; [congruence|].
  unfold strtok. cbn [skip_delims is_delim].
  replace (Ascii.eqb c " " || false) with false
    by (rewrite orb_false_r; symmetry; apply Ascii.eqb_neq; apply Hs; left; reflexivity).
  rewrite token_span_whole by exact Hs. reflexivity.
Qed.

(** ** Witnesses of the further properties *)

Lemma write_null_or_empty_rejected_witness :
  (NULL = NULL \/ 100 = 0) /\
  flash_write_safe demo_state 4096 NULL 100 = (demo_state, NullOrEmptyPayload).
Proof.
  split; [left; reflexivity|].
  apply (write_null_or_empty_rejected demo_state 4096 NULL 100). left; reflexivity.
Defined.

Lemma write_too_large_rejected_witness :
  536870912 <> NULL /\ 5000 <> 0 /\ FLASH_SECTOR_SIZE - METADATA_SIZE < 5000 /\
  flash_write_safe demo_state 4096 536870912 5000 =
  (demo_state, if flash_offset_of 4096 mod FLASH_SECTOR_SIZE =? 0 then PayloadTooLarge
               else MisalignedOffset).
Proof.
  assert (H1 : 536870912 <> NULL) by (unfold NULL; lia).
  assert (H2 : 5000 <> 0) by lia.
  assert (H3 : FLASH_SECTOR_SIZE - METADATA_SIZE < 5000)
    by (unfold FLASH_SECTOR_SIZE, METADATA_SIZE; lia).
  split; [exact H1|]. split; [exact H2|]. split; [exact H3|].
  exact (write_too_large_rejected demo_state 4096 536870912 5000 H1 H2 H3).
Defined.

Lemma out_of_range_rejected_witness :
  flash_offset_of 2097152 mod FLASH_SECTOR_SIZE = 0 /\
  flash_bound < flash_offset_of 2097152 + METADATA_SIZE /\
  536870912 <> NULL /\ 0 < 100 <= FLASH_SECTOR_SIZE - METADATA_SIZE /\
  flash_write_safe demo_state 2097152 536870912 100 = (demo_state, OutOfRange) /\
  flash_read_safe demo_state 2097152 536875008 100 = (demo_state, OutOfRange) /\
  flash_erase_safe demo_state 2097152 = (demo_state, OutOfRange) /\
  get_flash_write_count demo_state 2097152 = (0, OutOfRange) /\
  get_flash_data_length demo_state 2097152 = (0, OutOfRange).
Proof.
  assert (H1 : flash_offset_of 2097152 mod FLASH_SECTOR_SIZE = 0) by reflexivity.
  assert (H2 : flash_bound < flash_offset_of 2097152 + METADATA_SIZE)
    by (vm_compute; reflexivity).
  assert (H3 : 536870912 <> NULL) by (unfold NULL; lia).
  assert (H4 : 0 < 100 <= FLASH_SECTOR_SIZE - METADATA_SIZE)
    by (unfold FLASH_SECTOR_SIZE, METADATA_SIZE; lia).
  split; [exact H1|]. split; [exact H2|]. split; [exact H3|]. split; [exact H4|].
  exact (out_of_range_rejected demo_state 2097152 536870912 100 536875008 100 H1 H2 H3 H4).
Defined.

Lemma wrapped_offset_reaches_low_flash_witness :
  0 <= 0 < 64 /\ 536870912 <> NULL /\ 0 < 100 <= FLASH_SECTOR_SIZE - METADATA_SIZE /\
  (let o := 2 ^ 32 - FLASH_TARGET_OFFSET + FLASH_SECTOR_SIZE * 0 in
   let fo := FLASH_SECTOR_SIZE * 0 in
   fo + FLASH_SECTOR_SIZE <= FLASH_TARGET_OFFSET /\
   snd (flash_write_safe demo_state o 536870912 100) = Ok /\
   trace (fst (flash_write_safe demo_state o 536870912 100)) =
     trace demo_state ++ [EvDisableInts; EvErase fo FLASH_SECTOR_SIZE;
                          EvProgram fo METADATA_SIZE; EvRestoreInts] /\
   snd (flash_erase_safe demo_state o) = Ok /\
   trace (fst (flash_erase_safe demo_state o)) =
     trace demo_state ++ [EvDisableInts; EvErase fo FLASH_SECTOR_SIZE;
                          EvProgram fo METADATA_SIZE; EvRestoreInts]).
Proof.
  assert (H1 : 0 <= 0 < 64) by lia.
  assert (H2 : 536870912 <> NULL) by (unfold NULL; lia).
  assert (H3 : 0 < 100 <= FLASH_SECTOR_SIZE - METADATA_SIZE)
    by (unfold FLASH_SECTOR_SIZE, METADATA_SIZE; lia).
  split; [exact H1|]. split; [exact H2|]. split; [exact H3|].
  exact (wrapped_offset_reaches_low_flash demo_state 0 536870912 100 H1 H2 H3).
Defined.

Lemma write_flash_image_witness :
  block_ok 4096 /\ 536870912 <> NULL /\ 0 < 100 <= FLASH_SECTOR_SIZE - METADATA_SIZE /\
  padding_byte (flash_offset_of 4096) (flash_offset_of 4096 + 4) = false /\
  (let fo := flash_offset_of 4096 in
   flash (fst (flash_write_safe demo_state 4096 536870912 100)) (fo + 4) =
   if in_range fo (fo + 4) (fo + METADATA_SIZE) then
     nth (Z.to_nat (fo + 4 - fo))
         (struct_bytes (mkFlashData 1 (next_write_count (write_count (hdr demo_state 4096)))
                                    100 536870912)) 0
   else if in_range fo (fo + 4) (fo + FLASH_SECTOR_SIZE) then 255
   else flash demo_state (fo + 4)).
Proof.
  assert (H2 : 536870912 <> NULL) by (unfold NULL; lia).
  assert (H3 : 0 < 100 <= FLASH_SECTOR_SIZE - METADATA_SIZE)
    by (unfold FLASH_SECTOR_SIZE, METADATA_SIZE; lia).
  assert (H4 : padding_byte (flash_offset_of 4096) (flash_offset_of 4096 + 4) = false)
    by (vm_compute; reflexivity).
  split; [exact block_ok_4096|]. split; [exact H2|]. split; [exact H3|].
  split; [exact H4|].
  exact (write_flash_image demo_state 4096 536870912 100 (flash_offset_of 4096 + 4)
           block_ok_4096 H2 H3 H4).
Defined.

Lemma erase_flash_image_witness :
  block_ok 4096 /\
  padding_byte (flash_offset_of 4096) (flash_offset_of 4096 + 4) = false /\
  (let fo := flash_offset_of 4096 in
   flash (fst (flash_erase_safe demo_state 4096)) (fo + 4) =
   (if in_range fo (fo + 4) (fo + METADATA_SIZE) then
      nth (Z.to_nat (fo + 4 - fo)) (struct_bytes (restored_metadata demo_state 4096)) 0
    else if in_range fo (fo + 4) (fo + FLASH_SECTOR_SIZE) then 255
    else flash demo_state (fo + 4)) /\
   ram (fst (flash_erase_safe demo_state 4096)) = ram demo_state).
Proof.
  assert (H : padding_byte (flash_offset_of 4096) (flash_offset_of 4096 + 4) = false)
    by (vm_compute; reflexivity).
  split; [exact block_ok_4096|]. split; [exact H|].
  destruct (erase_flash_image demo_state 4096 block_ok_4096) as [H1 H2].
  split; [exact (H1 _ H) | exact H2].
Defined.

Lemma erase_idempotent_witness :
  flash_wf demo_state /\ padding_byte (flash_offset_of 4096) 266244 = false /\
  flash (fst (flash_erase_safe (fst (flash_erase_safe demo_state 4096)) 4096)) 266244 =
  flash (fst (flash_erase_safe demo_state 4096)) 266244.
Proof.
  assert (H : padding_byte (flash_offset_of 4096) 266244 = false)
    by (vm_compute; reflexivity).
  split; [exact demo_state_wf|]. split; [exact H|].
  exact (erase_idempotent demo_state 4096 demo_state_wf 266244 H).
Defined.

Lemma erase_before_write_redundant_witness :
  flash_wf demo_state /\ snd (flash_write_safe demo_state 4096 536870912 100) = Ok /\
  padding_byte (flash_offset_of 4096) 266244 = false /\
  snd (flash_write_safe (fst (flash_erase_safe demo_state 4096)) 4096 536870912 100) = Ok /\
  flash (fst (flash_write_safe (fst (flash_erase_safe demo_state 4096)) 4096 536870912 100))
    266244 =
  flash (fst (flash_write_safe demo_state 4096 536870912 100)) 266244.
Proof.
  assert (H : snd (flash_write_safe demo_state 4096 536870912 100) = Ok)
    by (vm_compute; reflexivity).
  assert (Hp : padding_byte (flash_offset_of 4096) 266244 = false)
    by (vm_compute; reflexivity).
  split; [exact demo_state_wf|]. split; [exact H|]. split; [exact Hp|].
  destruct (erase_before_write_redundant demo_state 4096 536870912 100 demo_state_wf H)
    as [H1 H2].
  split; [exact H1 | exact (H2 266244 Hp)].
Defined.

Lemma write_then_query_witness :
  block_ok 4096 /\ 0 < 536870912 < 2 ^ 32 /\ 0 < 100 <= FLASH_SECTOR_SIZE - METADATA_SIZE /\
  (let st' := fst (flash_write_safe demo_state 4096 536870912 100) in
   get_flash_data_length st' 4096 = (100, Ok) /\
   get_flash_write_count st' 4096 =
     (next_write_count (write_count (hdr demo_state 4096)), Ok) /\
   valid (hdr st' 4096) = 1 /\ data_ptr (hdr st' 4096) = 536870912).
Proof.
  assert (H2 : 0 < 536870912 < 2 ^ 32) by lia.
  assert (H3 : 0 < 100 <= FLASH_SECTOR_SIZE - METADATA_SIZE)
    by (unfold FLASH_SECTOR_SIZE, METADATA_SIZE; lia).
  split; [exact block_ok_4096|]. split; [exact H2|]. split; [exact H3|].
  exact (write_then_query demo_state 4096 536870912 100 block_ok_4096 H2 H3).
Defined.

Lemma serialize_without_payload_witness :
  let d := mkFlashData 1 7 5 NULL in
  (data_ptr d = NULL \/ data_len d = 0) /\ SERIALIZED_HEADER_SIZE + data_len d <= 20 /\
  snd (serialize_flash_data (fun _ => 0) d 100 20) = Ok /\
  fst (serialize_flash_data (fun _ => 0) d 100 20) 105 =
    (if in_range 100 105 (100 + SERIALIZED_HEADER_SIZE)
     then nth (Z.to_nat (105 - 100)) (serialized_header d) 0 else 0).
Proof.
  intros d.
  assert (H1 : data_ptr d = NULL \/ data_len d = 0) by (left; reflexivity).
  assert (H2 : SERIALIZED_HEADER_SIZE + data_len d <= 20)
    by (unfold SERIALIZED_HEADER_SIZE, d; cbn [data_len]; lia).
  split; [exact H1|]. split; [exact H2|].
  destruct (serialize_without_payload (fun _ => 0) d 100 20 H1 H2) as [E1 E2].
  split; [exact E1 | apply E2].
Defined.

Lemma device_config_codec_witness :
  let c := mkDeviceConfig 5123 1120219955 [68; 101; 118; 105; 99; 101; 49; 0; 0; 0] in
  0 <= id c < 2 ^ 32 /\ 0 <= sensor_value c < 2 ^ 32 /\ length (name c) = 10%nat /\
  deserialize_device_config (serialize_device_config (fun _ => 0) c 536870912) 536870912 = c /\
  serialize_device_config (fun _ => 0) c 536870912 536870930 = 0.
Proof.
  intros c.
  assert (H1 : 0 <= id c < 2 ^ 32) by (cbn [id c]; lia).
  assert (H2 : 0 <= sensor_value c < 2 ^ 32) by (cbn [sensor_value c]; lia).
  assert (H3 : length (name c) = 10%nat) by reflexivity.
  split; [exact H1|]. split; [exact H2|]. split; [exact H3|].
  destruct (device_config_codec (fun _ => 0) c 536870912 H1 H2 H3) as [E1 E2].
  split; [exact E1 | apply E2; lia].
Defined.

Lemma prepare_buffer_layout_witness :
  let text := [104; 105; 0] in
  In 0 text /\ Z.of_nat (length text) <= 2 ^ 32 - 256 /\
  (let text_len := strlen text + 1 in
   let buffer_size := fst (prepare_buffer text true) in
   buffer_size mod 256 = 0 /\ text_len <= buffer_size < text_len + 256 /\
   snd (prepare_buffer text true) =
     Some (firstn (Z.to_nat text_len) text
           ++ repeat 0 (Z.to_nat (buffer_size - text_len))) /\
   (forall contents, snd (prepare_buffer text true) = Some contents ->
      strlen contents = strlen text) /\
   prepare_buffer text false = (buffer_size, None)).
Proof.
  intros text.
  assert (H1 : In 0 text) by (right; right; left; reflexivity).
  assert (H2 : Z.of_nat (length text) <= 2 ^ 32 - 256) by (cbn; lia).
  split; [exact H1|]. split; [exact H2|].
  exact (prepare_buffer_layout text H1 H2).
Defined.

(** [FLASH_ERASE -4096] erases the last sector below the user area. *)
Lemma execute_erase_command_witness :
  "-4096"%string <> EmptyString /\
  (forall c, In c (list_ascii_of_string "-4096") -> c <> " "%char) /\
  u32 (atoi "-4096") = 4294963200 /\ flash_offset_of 4294963200 = 258048 /\
  execute_command demo_state ("FLASH_ERASE " ++ "-4096") =
  (fst (flash_erase_safe demo_state (u32 (atoi "-4096"))), CliErased (u32 (atoi "-4096"))).
Proof.
  assert (H1 : "-4096"%string <> EmptyString) by discriminate.
  assert (H2 : forall c, In c (list_ascii_of_string "-4096") -> c <> " "%char).
  { intros c Hc. cbn in Hc.
    destruct Hc as [<- | [<- | [<- | [<- | [<- | []]]]]]; discriminate. }
  split; [exact H1|]. split; [exact H2|]. split; [reflexivity|]. split; [reflexivity|].
  exact (execute_erase_command demo_state "-4096" H1 H2).
Defined.
